(** * Yahtzee by Monte Carlo sampling: a shallow embedding of [yahtzee.ipynb]

    The notebook rolls five dice up to three times per turn, keeps the most
    frequent face between rolls, and estimates the chance of five of a kind
    by the mean over many simulated turns.

    Dice are the integral values 1.0 .. 6.0 of a numpy float64 array; they
    are modelled as [Z] (equality and hashing of such floats agree with the
    integers').  The model is that of the notebook on dice: it does not
    follow numpy on integers that float64 cannot hold.  Python lists and numpy arrays are [list]s.  The two
    generators the notebook draws from ([np.random] and [random]) are
    explicit state; exceptions are explicit results. *)

From Stdlib Require Import List ZArith QArith Lia Bool Arith.
From Stdlib Require Import Permutation Sorted.
Import ListNotations.

Local Open Scope nat_scope.

(** ** Results, exceptions and the random sources *)

(** The Python exceptions the modelled statements can raise.  The last two
    are the conditions named by the specification; no statement of the
    notebook raises them. *)
Inductive exn : Type :=
| ValueError
| IndexError
| ZeroDivisionError
| InvalidArgument
| UndefinedResult.

(** A computation returns, raises, or is cut off by the iteration budget of
    a [while] loop. *)
Inductive result (A : Type) : Type :=
| Ret (a : A)
| Raise (e : exn)
| OutOfFuel.

Arguments Ret {A} a.
Arguments Raise {A} e.
Arguments OutOfFuel {A}.

(** The state of the two generators: each is an arbitrary infinite sequence
    of raw draws with a cursor.  A raw draw is reduced to the requested
    range, so every sequence of in-range outcomes is produced by some
    source. *)
Record rng : Type := mk_rng {
  np_draws : nat -> nat;
  np_pos : nat;
  py_draws : nat -> nat;
  py_pos : nat
}.

Definition M (A : Type) : Type := rng -> result (A * rng).

Definition ret {A} (a : A) : M A := fun g => Ret (a, g).

Definition raise {A} (e : exn) : M A := fun _ => Raise e.

Definition bind {A B} (m : M A) (k : A -> M B) : M B :=
  fun g =>
    match m g with
    | Ret (a, g') => k a g'
    | Raise e => Raise e
    | OutOfFuel => OutOfFuel
    end.

Notation "x <- m ;; k" := (bind m (fun x => k))
  (at level 61, m at next level, right associativity).

(** One value of [np.random.randint(low, high)]. *)
Definition np_next (low high : Z) : M Z :=
  fun g =>
    Ret ((low + Z.of_nat (np_draws g (np_pos g)) mod (high - low))%Z,
         mk_rng (np_draws g) (S (np_pos g)) (py_draws g) (py_pos g)).

Fixpoint np_draw_many (low high : Z) (n : nat) : M (list Z) :=
  match n with
  | O => ret []
  | S n' =>
      d <- np_next low high ;;
      ds <- np_draw_many low high n' ;;
      ret (d :: ds)
  end.

(** [np.random.randint(low, high, size)]: [size] draws from [low, high);
    an empty range or a negative size is a ValueError. *)
Definition np_random_randint (low high size : Z) : M (list Z) :=
  if (high <=? low)%Z then raise ValueError
  else if (size <? 0)%Z then raise ValueError
  else np_draw_many low high (Z.to_nat size).

(** [random.choice(seq)]: [seq[randbelow(len(seq))]], IndexError on an
    empty sequence. *)
Definition random_choice (seq : list Z) : M Z :=
  fun g =>
    match seq with
    | [] => Raise IndexError
    | _ :: _ =>
        Ret (nth (py_draws g (py_pos g) mod length seq) seq 0%Z,
             mk_rng (np_draws g) (np_pos g) (py_draws g) (S (py_pos g)))
    end.

(** ** [roll_dice]

<<
    roll_size = 5 - len(previous_roll)
    new_roll = np.random.randint(1, 7, roll_size)
    return np.append(previous_roll, new_roll)
>> *)
Definition roll_dice (previous_roll : list Z) : M (list Z) :=
  let roll_size := (5 - Z.of_nat (length previous_roll))%Z in
  new_roll <- np_random_randint 1 7 roll_size ;;
  ret (previous_roll ++ new_roll).

(** ** [collections.Counter] and [most_common] *)

(** A Counter is an insertion-ordered dictionary from elements to counts:
    an association list whose order is the order of first occurrence. *)
Definition counter : Type := list (Z * nat).

Fixpoint counter_incr (x : Z) (c : counter) : counter :=
  match c with
  | [] => [(x, 1)]
  | (k, n) :: c' =>
      if (k =? x)%Z then (k, S n) :: c' else (k, n) :: counter_incr x c'
  end.

Definition Counter (l : list Z) : counter :=
  fold_left (fun c x => counter_incr x c) l [].

(** [most_common()] is [sorted(items, key=itemgetter(1), reverse=True)]: a
    stable sort by descending count.  [insert_desc p l] puts [p], which
    precedes every element of [l] in the dictionary, before the first
    element whose count is not larger. *)
Fixpoint insert_desc (p : Z * nat) (l : counter) : counter :=
  match l with
  | [] => [p]
  | q :: l' =>
      if snd q <=? snd p then p :: q :: l' else q :: insert_desc p l'
  end.

Definition most_common (c : counter) : counter :=
  fold_right insert_desc [] c.

(** ** [find_what_to_keep]

<<
    count = 0
    mode_list = []
    counted = Counter(roll_list).most_common()
    for die in counted:
        if die[1] >= count:
            count = die[1]
            mode_list.append(die[0])
    return mode_list, count
>> *)
Definition mode_step (acc : list Z * nat) (die : Z * nat) : list Z * nat :=
  let (mode_list, count) := acc in
  if count <=? snd die then (mode_list ++ [fst die], snd die)
  else (mode_list, count).

Definition find_what_to_keep (roll_list : list Z) : list Z * nat :=
  let counted := most_common (Counter roll_list) in
  fold_left mode_step counted ([], 0).

(** ** [play_one_round_of_yahtzee] *)

(** The variables of the function that live across loop iterations. *)
Record loop_state : Type := mk_state {
  previous_roll : list Z;
  roll_count : nat;
  mode_count : nat
}.

Definition init_state : loop_state := mk_state [] 0 0.

(** [roll[np.where(roll == keep)]] *)
Definition keep_dice (roll : list Z) (keep : Z) : list Z :=
  filter (fun d => (d =? keep)%Z) roll.

(** [while roll_count < 3 and mode_count < 5] *)
Definition loop_cond (s : loop_state) : bool :=
  (roll_count s <? 3) && (mode_count s <? 5).

(** The loop body:
<<
        roll = roll_dice(previous_roll)
        to_keep = find_what_to_keep(roll)
        mode_count = to_keep[1]
        if mode_count > 1:
            keep = random.choice(to_keep[0])
            previous_roll = roll[np.where(roll == keep)]
        roll_count += 1
>> *)
Definition loop_body (s : loop_state) : M loop_state :=
  roll <- roll_dice (previous_roll s) ;;
  let to_keep := find_what_to_keep roll in
  let mode_count' := snd to_keep in
  if 1 <? mode_count' then
    keep <- random_choice (fst to_keep) ;;
    ret (mk_state (keep_dice roll keep) (S (roll_count s)) mode_count')
  else
    ret (mk_state (previous_roll s) (S (roll_count s)) mode_count').

(** A [while] loop with a budget of body executions: the test comes first,
    so a loop whose test is false returns whatever the budget. *)
Fixpoint while {St : Type} (cond : St -> bool) (body : St -> M St)
    (fuel : nat) (s : St) : M St :=
  if cond s then
    match fuel with
    | O => fun _ => OutOfFuel
    | S fuel' => s' <- body s ;; while cond body fuel' s'
    end
  else ret s.

Definition turn_loop (fuel : nat) : M loop_state :=
  while loop_cond loop_body fuel init_state.

(** The whole function; it returns the integers 1 (a Yahtzee, "true") and
    0 ("false"):
<<
    if mode_count == 5:
        return 1
    else:
        return 0
>> *)
Definition play_one_round_of_yahtzee (fuel : nat) : M Z :=
  s <- turn_loop fuel ;;
  if mode_count s =? 5 then ret 1%Z else ret 0%Z.

(** The first definition of the function in the notebook, which prints
    every hand.  The standard output is the list of the values printed, in
    order (their formatting as text is not modelled):
<<
    while roll_count < 3 and mode_count < 5:
        roll = roll_dice(previous_roll)
        print(roll)
        to_keep = find_what_to_keep(roll)
        mode_count = to_keep[1]
        if mode_count > 1:
            keep = random.choice(to_keep[0])
            previous_roll = roll[np.where(roll == keep)]
        roll_count += 1
>> *)
Definition loop_body_print (st : loop_state * list (list Z))
    : M (loop_state * list (list Z)) :=
  let (s, stdout) := st in
  roll <- roll_dice (previous_roll s) ;;
  let stdout' := stdout ++ [roll] in
  let to_keep := find_what_to_keep roll in
  let mode_count' := snd to_keep in
  if 1 <? mode_count' then
    keep <- random_choice (fst to_keep) ;;
    ret (mk_state (keep_dice roll keep) (S (roll_count s)) mode_count', stdout')
  else
    ret (mk_state (previous_roll s) (S (roll_count s)) mode_count', stdout').

Definition play_one_round_of_yahtzee_print (fuel : nat)
    : M (Z * list (list Z)) :=
  st <- while (fun st => loop_cond (fst st)) loop_body_print fuel
          (init_state, []) ;;
  if mode_count (fst st) =? 5 then ret (1%Z, snd st) else ret (0%Z, snd st).

(** The loop as a step relation: [loop_reaches g0 k s g] says that, started
    on the generators [g0], the loop is at its test for the [k+1]-th time,
    after [k] executions of the body (that is, [k] rolls), in state [s] with
    generators [g]. *)
Inductive loop_reaches (g0 : rng) : nat -> loop_state -> rng -> Prop :=
| reaches_init : loop_reaches g0 0 init_state g0
| reaches_step k s g s' g' :
    loop_reaches g0 k s g ->
    loop_cond s = true ->
    loop_body s g = Ret (s', g') ->
    loop_reaches g0 (S k) s' g'.

(** ** The Monte Carlo cells *)

(** A Python or numpy float that is a number, or NaN.  Numbers are exact
    rationals in lowest terms: the rounding of float64 is not modelled. *)
Inductive pyfloat : Type :=
| Finite (q : Q)
| NaN.

(** [np.mean(l)]: the sum over the length; NaN (with a warning, not an
    exception) for an empty list. *)
Definition np_mean (l : list Z) : pyfloat :=
  match l with
  | [] => NaN
  | _ :: _ => Finite (Qred (fold_right Z.add 0%Z l # Pos.of_nat (length l)))
  end.

(** <<
    for i in range(n):
        yahtzees.append(play_one_round_of_yahtzee())
>> *)
Fixpoint run_trials (fuel : nat) (n : nat) (yahtzees : list Z) : M (list Z) :=
  match n with
  | O => ret yahtzees
  | S n' =>
      y <- play_one_round_of_yahtzee fuel ;;
      run_trials fuel n' (yahtzees ++ [y])
  end.

(** The sampling cell, with its literal trial count (1000, 1000000) as the
    parameter [n]; [range(n)] is empty for [n <= 0]:
<<
    yahtzees = []
    for i in range(n):
        yahtzees.append(play_one_round_of_yahtzee())
    np.mean(yahtzees)
>> *)
Definition estimate (fuel : nat) (n : Z) : M pyfloat :=
  yahtzees <- run_trials fuel (Z.to_nat n) [] ;;
  ret (np_mean yahtzees).

(** Python's division [x / y] of two Python numbers: ZeroDivisionError on
    a zero divisor.  The quotient is the exact rational: its rounding to
    float64 is not modelled. *)
Definition py_truediv (x y : pyfloat) : result pyfloat :=
  match y with
  | NaN => Ret NaN
  | Finite b =>
      if Qeq_bool b 0 then Raise ZeroDivisionError
      else match x with
           | NaN => Ret NaN
           | Finite a => Ret (Finite (Qred (a / b)))
           end
  end.

(** The last cell, which computes the expected number of turns.  It
    divides two literals; it does not read the estimate of the sampling
    cell:
<<
    1 / 0.046
>> *)
Definition expected_turns : result pyfloat :=
  py_truediv (Finite 1) (Finite (46 # 1000)).

(** [n] successive invocations of the turn simulator, threading the
    generators, with their outcomes in order. *)
Inductive trials (fuel : nat) : nat -> rng -> list Z -> rng -> Prop :=
| trials_O g : trials fuel 0 g [] g
| trials_S n g y g1 ys g2 :
    play_one_round_of_yahtzee fuel g = Ret (y, g1) ->
    trials fuel n g1 ys g2 ->
    trials fuel (S n) g (y :: ys) g2.

(** ** Vocabulary of the statements *)

(** The number of dice of [roll] showing face [f]. *)
Definition freq (f : Z) (roll : list Z) : nat := count_occ Z.eq_dec roll f.

Definition face (d : Z) : Prop := (1 <= d <= 6)%Z.

(** A hand: five dice with faces in 1..6. *)
Definition valid_hand (roll : list Z) : Prop :=
  length roll = 5 /\ Forall face roll.

(** [c[k]]: the count a Counter holds for [k], 0 for a missing key. *)
Fixpoint cget (k : Z) (c : counter) : nat :=
  match c with
  | [] => 0
  | (k', n) :: c' => if (k' =? k)%Z then n else cget k c'
  end.

(** Descending order of counts, as [most_common] lists its items. *)
Definition desc (p q : Z * nat) : Prop := snd q <= snd p.

(** What the loop maintains between rolls: the last mode count is at most
    5, and the kept dice are either none (no pair seen yet) or exactly
    [mode_count] copies of one face. *)
Definition kept_inv (s : loop_state) : Prop :=
  mode_count s <= 5 /\
  ((previous_roll s = [] /\ mode_count s <= 1) \/
   (exists keep, face keep /\ 2 <= mode_count s /\
                 previous_roll s = repeat keep (mode_count s))).

(** Five of a kind. *)
Definition yahtzee (roll : list Z) : Prop := exists d, roll = repeat d 5.

(** The distinct faces of a list in the order of their first appearance. *)
Fixpoint first_seen (roll : list Z) : list Z :=
  match roll with
  | [] => []
  | x :: roll' => x :: filter (fun y => negb (y =? x)%Z) (first_seen roll')
  end.

(** Membership in a list of faces, as a boolean. *)
Definition mem (y : Z) (l : list Z) : bool := existsb (Z.eqb y) l.

(** The hand that [n] fresh dice make from the draws at the cursor. *)
Definition fresh_dice (g : rng) (n : nat) : list Z :=
  map (fun i => (1 + Z.of_nat (np_draws g (np_pos g + i)) mod 6)%Z) (seq 0 n).

(** The generators after [a] dice draws and [b] tie-break draws. *)
Definition advance (g : rng) (a b : nat) : rng :=
  mk_rng (np_draws g) (np_pos g + a) (py_draws g) (py_pos g + b).

(** Concrete generators for the examples: the dice stream is [a * i], the
    choice stream [b + i]; the cursors stand at [i] and [j]. *)
Definition seq_rng_at (a b i j : nat) : rng :=
  mk_rng (fun i => a * i) i (fun i => b + i) j.

Definition seq_rng (a b : nat) : rng := seq_rng_at a b 0 0.

(** Five dice showing 1, then the cycle 6, 1, 2, 3, 4, 5, 6, ... *)
Definition lucky_rng_at (i j : nat) : rng :=
  mk_rng (fun i => if i <? 5 then 0 else i) i (fun i => i) j.

(** * Proofs *)

(** ** The monad *)

Lemma bind_Ret {A B} (m : M A) (k : A -> M B) g a g1 :
  m g = Ret (a, g1) -> bind m k g = k a g1.
Proof. intros H. unfold bind. now rewrite H. Qed.

Lemma bind_Ret_inv {A B} (m : M A) (k : A -> M B) g b g' :
  bind m k g = Ret (b, g') ->
  exists a g1, m g = Ret (a, g1) /\ k a g1 = Ret (b, g').
Proof.
  unfold bind. destruct (m g) as [[a g1]|e|]; try discriminate.
  intros H. now exists a, g1.
Qed.

Ltac inv_bind H :=
  let a := fresh "a" in
  let g := fresh "g" in
  let Ha := fresh "Hm" in
  apply bind_Ret_inv in H; destruct H as (a & g & Ha & H).

(** ** The dice generator *)

Lemma np_next_face g :
  exists d g1, np_next 1 7 g = Ret (d, g1) /\ face d.
Proof.
  eexists _, _. split; [reflexivity|].
  unfold face. change (7 - 1)%Z with 6%Z.
  pose proof (Z.mod_pos_bound (Z.of_nat (np_draws g (np_pos g))) 6).
  lia.
Qed.

Lemma np_draw_many_faces n : forall g,
  exists ds g1, np_draw_many 1 7 n g = Ret (ds, g1) /\
                length ds = n /\ Forall face ds.
Proof.
  induction n as [|n IH]; intros g; simpl.
  - exists [], g. repeat split; constructor.
  - destruct (np_next_face g) as (d & g1 & Hd & Hf).
    destruct (IH g1) as (ds & g2 & Hds & Hlen & Hfs).
    exists (d :: ds), g2. split.
    + rewrite (bind_Ret _ _ _ _ _ Hd), (bind_Ret _ _ _ _ _ Hds). reflexivity.
    + simpl. split; [now rewrite Hlen | now constructor].
Qed.

(** What [roll_dice] returns when at most five dice are kept: the kept dice
    followed by fresh faces, five dice in all. *)
Lemma roll_dice_ok previous g :
  length previous <= 5 ->
  exists new_roll g1,
    roll_dice previous g = Ret (previous ++ new_roll, g1) /\
    length (previous ++ new_roll) = 5 /\ Forall face new_roll.
Proof.
  intros Hlen. unfold roll_dice, np_random_randint.
  change (7 <=? 1)%Z with false. cbv iota.
  destruct (Z.ltb_spec (5 - Z.of_nat (length previous)) 0) as [Hneg|_]; [lia|].
  destruct (np_draw_many_faces (Z.to_nat (5 - Z.of_nat (length previous))) g)
    as (ds & g1 & Hds & Hl & Hf).
  exists ds, g1. split.
  - now rewrite (bind_Ret _ _ _ _ _ Hds).
  - split; [|exact Hf]. rewrite length_app, Hl. lia.
Qed.

(** With more than five dice kept, [randint] is asked for a negative size. *)
Lemma roll_dice_too_many previous g :
  5 < length previous -> roll_dice previous g = Raise ValueError.
Proof.
  intros Hlen. unfold roll_dice, np_random_randint, bind.
  change (7 <=? 1)%Z with false. cbv iota.
  destruct (Z.ltb_spec (5 - Z.of_nat (length previous)) 0) as [_|Hpos]; [|lia].
  reflexivity.
Qed.

Lemma random_choice_In seq g keep g1 :
  random_choice seq g = Ret (keep, g1) -> In keep seq.
Proof.
  unfold random_choice. destruct seq as [|x seq]; [discriminate|].
  set (l := x :: seq). intros H.
  assert (Hk : keep = nth (py_draws g (py_pos g) mod length l) l 0%Z)
    by congruence.
  rewrite Hk. apply nth_In. apply Nat.mod_upper_bound. discriminate.
Qed.

Lemma random_choice_ok seq g :
  seq <> [] -> exists keep g1, random_choice seq g = Ret (keep, g1).
Proof.
  destruct seq as [|x seq]; [congruence|]. intros _.
  unfold random_choice. eexists _, _. reflexivity.
Qed.

(** ** Counter *)

Lemma freq_cons f x roll :
  freq f (x :: roll) = if (x =? f)%Z then S (freq f roll) else freq f roll.
Proof.
  unfold freq. simpl.
  destruct (Z.eq_dec x f) as [->|Hne].
  - now rewrite Z.eqb_refl.
  - apply Z.eqb_neq in Hne. now rewrite Hne.
Qed.

Lemma cget_incr k x c :
  cget k (counter_incr x c) = if (x =? k)%Z then S (cget k c) else cget k c.
Proof.
  induction c as [|[k' n] c IH]; simpl.
  - reflexivity.
  - destruct (Z.eqb_spec k' x) as [->|Hkx]; simpl.
    + now destruct (x =? k)%Z.
    + destruct (Z.eqb_spec k' k) as [->|Hkk]; [|exact IH].
      apply Z.eqb_neq in Hkx. rewrite Z.eqb_sym in Hkx. now rewrite Hkx.
Qed.

Lemma cget_fold k roll : forall c,
  cget k (fold_left (fun c x => counter_incr x c) roll c) = freq k roll + cget k c.
Proof.
  induction roll as [|x roll IH]; intros c.
  - reflexivity.
  - cbn [fold_left]. rewrite IH, cget_incr, freq_cons.
    destruct (x =? k)%Z; lia.
Qed.

Lemma cget_Counter k roll : cget k (Counter roll) = freq k roll.
Proof. unfold Counter. rewrite cget_fold. simpl. lia. Qed.

Lemma keys_incr k x c :
  In k (map fst (counter_incr x c)) <-> k = x \/ In k (map fst c).
Proof.
  induction c as [|[k' n] c IH]; simpl.
  - intuition.
  - destruct (Z.eqb_spec k' x) as [->|Hkx]; simpl; intuition.
Qed.

Lemma NoDup_incr x c :
  NoDup (map fst c) -> NoDup (map fst (counter_incr x c)).
Proof.
  induction c as [|[k' n] c IH]; simpl; intros Hnd.
  - constructor; [intros []|constructor].
  - inversion Hnd as [|? ? Hnotin Hnd']; subst.
    destruct (Z.eqb_spec k' x) as [->|Hkx]; simpl.
    + now constructor.
    + constructor; [|auto].
      rewrite keys_incr. intros [->|Hin]; congruence.
Qed.

Lemma positive_incr x c :
  Forall (fun p => 0 < snd p) c -> Forall (fun p => 0 < snd p) (counter_incr x c).
Proof.
  induction 1 as [|[k' n] c Hp Hc IH]; simpl.
  - repeat constructor.
  - destruct (k' =? x)%Z; constructor; simpl in *; auto; lia.
Qed.

Lemma Counter_keys roll :
  NoDup (map fst (Counter roll)) /\ Forall (fun p => 0 < snd p) (Counter roll).
Proof.
  unfold Counter.
  assert (G : forall c, NoDup (map fst c) /\ Forall (fun p => 0 < snd p) c ->
    NoDup (map fst (fold_left (fun c x => counter_incr x c) roll c)) /\
    Forall (fun p => 0 < snd p) (fold_left (fun c x => counter_incr x c) roll c)).
  { induction roll as [|x roll IH]; intros c [Hnd Hpos]; simpl.
    - now split.
    - apply IH. split; [now apply NoDup_incr | now apply positive_incr]. }
  apply G. split; constructor.
Qed.

Lemma In_cget k n c :
  NoDup (map fst c) -> In (k, n) c -> cget k c = n.
Proof.
  induction c as [|[k' n'] c IH]; simpl; intros Hnd Hin.
  - contradiction.
  - inversion Hnd as [|? ? Hnotin Hnd']; subst.
    destruct Hin as [Heq|Hin].
    + injection Heq as -> ->. now rewrite Z.eqb_refl.
    + destruct (Z.eqb_spec k' k) as [->|Hne]; [|auto].
      exfalso. apply Hnotin. now apply (in_map fst) in Hin.
Qed.

Lemma cget_In k c : 0 < cget k c -> In (k, cget k c) c.
Proof.
  induction c as [|[k' n'] c IH]; simpl; intros Hpos.
  - lia.
  - destruct (Z.eqb_spec k' k) as [->|Hne]; auto.
Qed.

(** The items of [Counter(roll)] are the faces present with their
    frequencies. *)
Lemma Counter_items roll k n :
  In (k, n) (Counter roll) <-> n = freq k roll /\ 0 < n.
Proof.
  destruct (Counter_keys roll) as [Hnd Hpos]. split.
  - intros Hin. split.
    + rewrite <- cget_Counter. symmetry. now apply In_cget.
    + rewrite Forall_forall in Hpos. exact (Hpos _ Hin).
  - intros [-> Hn]. rewrite <- cget_Counter in *. now apply cget_In.
Qed.

(** ** most_common *)

Lemma insert_desc_perm p l : Permutation (insert_desc p l) (p :: l).
Proof.
  induction l as [|q l IH]; simpl.
  - reflexivity.
  - destruct (snd q <=? snd p); [reflexivity|].
    rewrite IH. apply perm_swap.
Qed.

Lemma most_common_perm c : Permutation (most_common c) c.
Proof.
  induction c as [|p c IH]; simpl.
  - reflexivity.
  - rewrite insert_desc_perm. now constructor.
Qed.

Lemma insert_desc_sorted p l :
  StronglySorted desc l -> StronglySorted desc (insert_desc p l).
Proof.
  induction 1 as [|q l Hs IH Hq]; simpl.
  - repeat constructor.
  - destruct (Nat.leb_spec (snd q) (snd p)) as [Hle|Hlt].
    + constructor; [now constructor|].
      constructor; [exact Hle|].
      eapply Forall_impl; [|exact Hq]. unfold desc. intros r Hr. lia.
    + constructor; [exact IH|].
      eapply Permutation_Forall; [symmetry; apply insert_desc_perm|].
      constructor; [unfold desc; lia | exact Hq].
Qed.

Lemma most_common_sorted c : StronglySorted desc (most_common c).
Proof.
  induction c as [|p c IH]; simpl.
  - constructor.
  - now apply insert_desc_sorted.
Qed.

(** ** find_what_to_keep *)

(** Once the running [count] bounds every remaining item, the loop appends
    exactly the items that reach it and leaves [count] alone. *)
Lemma mode_loop_bounded l : forall mode_list count,
  Forall (fun p => snd p <= count) l ->
  fold_left mode_step l (mode_list, count) =
  (mode_list ++ map fst (filter (fun p => count <=? snd p) l), count).
Proof.
  induction l as [|p l IH]; intros mode_list count Hle; simpl.
  - now rewrite app_nil_r.
  - inversion Hle as [|? ? Hp Hl]; subst.
    destruct (Nat.leb_spec count (snd p)) as [Hge|Hlt].
    + assert (Heq : snd p = count) by lia. rewrite Heq.
      rewrite IH by exact Hl. simpl. now rewrite <- app_assoc.
    + now apply IH.
Qed.

Lemma find_what_to_keep_counted roll p l :
  most_common (Counter roll) = p :: l ->
  find_what_to_keep roll =
  (fst p :: map fst (filter (fun q => snd p <=? snd q) l), snd p).
Proof.
  intros E. unfold find_what_to_keep. rewrite E. simpl.
  pose proof (most_common_sorted (Counter roll)) as Hs. rewrite E in Hs.
  apply StronglySorted_inv in Hs. destruct Hs as [_ Hp].
  now rewrite mode_loop_bounded.
Qed.

Lemma counted_items roll k n :
  In (k, n) (most_common (Counter roll)) <-> n = freq k roll /\ 0 < n.
Proof.
  rewrite <- Counter_items. split; apply Permutation_in.
  - apply most_common_perm.
  - symmetry. apply most_common_perm.
Qed.

Lemma freq_pos_In f roll : 0 < freq f roll <-> In f roll.
Proof. unfold freq. symmetry. apply count_occ_In. Qed.

(** The two results of [find_what_to_keep] on a non-empty list: [count] is
    the frequency of a face of the list, no face is more frequent, and
    [mode_list] holds the faces of that frequency. *)
Lemma find_what_to_keep_spec roll :
  roll <> [] ->
  (exists f0, In f0 roll /\ freq f0 roll = snd (find_what_to_keep roll)) /\
  (forall f, freq f roll <= snd (find_what_to_keep roll)) /\
  (forall f, In f (fst (find_what_to_keep roll)) <->
             freq f roll = snd (find_what_to_keep roll)).
Proof.
  intros Hne.
  destruct (most_common (Counter roll)) as [|[k0 c0] l] eqn:E.
  { destruct roll as [|x roll]; [congruence|]. exfalso.
    assert (Hx : In (x, freq x (x :: roll)) (most_common (Counter (x :: roll)))).
    { apply counted_items. split; [reflexivity|].
      apply freq_pos_In. now left. }
    rewrite E in Hx. exact Hx. }
  rewrite (find_what_to_keep_counted _ _ _ E). cbn [fst snd].
  pose proof (most_common_sorted (Counter roll)) as Hs. rewrite E in Hs.
  apply StronglySorted_inv in Hs. destruct Hs as [_ Hdesc].
  rewrite Forall_forall in Hdesc. unfold desc in Hdesc. cbn [snd] in Hdesc.
  assert (Hhead : c0 = freq k0 roll /\ 0 < c0).
  { apply counted_items. rewrite E. now left. }
  destruct Hhead as [Hc0 Hpos].
  assert (Hitem : forall k n, In (k, n) l -> n = freq k roll /\ 0 < n).
  { intros k n Hin. apply counted_items. rewrite E. now right. }
  assert (Hmax : forall f, freq f roll <= c0).
  { intros f. destruct (Nat.eq_dec (freq f roll) 0) as [Hz|Hnz]; [lia|].
    assert (Hin : In (f, freq f roll) (most_common (Counter roll))).
    { apply counted_items. split; [reflexivity|lia]. }
    rewrite E in Hin. destruct Hin as [Heq|Hin].
    - injection Heq as _ Heq. lia.
    - exact (Hdesc _ Hin). }
  split; [|split].
  - exists k0. split; [|now symmetry].
    apply freq_pos_In. lia.
  - exact Hmax.
  - intros f. split.
    + intros [<-|Hin]; [now symmetry|].
      apply in_map_iff in Hin. destruct Hin as ([k n] & Hk & Hin).
      apply filter_In in Hin. destruct Hin as [Hin Hge].
      cbn [fst snd] in *. subst k.
      apply Nat.leb_le in Hge.
      destruct (Hitem _ _ Hin) as [Hn _]. specialize (Hmax f). lia.
    + intros Hf.
      assert (Hin : In (f, freq f roll) (most_common (Counter roll))).
      { apply counted_items. split; [reflexivity|lia]. }
      rewrite E in Hin. destruct Hin as [Heq|Hin].
      * injection Heq as -> _. now left.
      * right. apply in_map_iff. exists (f, freq f roll). split; [reflexivity|].
        apply filter_In. split; [exact Hin|].
        cbn [snd]. apply Nat.leb_le. lia.
Qed.

Lemma find_what_to_keep_nil : find_what_to_keep [] = ([], 0).
Proof. reflexivity. Qed.

(** No face is more frequent than a face of [mode_list], on any list. *)
Lemma mode_list_max roll f f' :
  In f (fst (find_what_to_keep roll)) -> freq f' roll <= freq f roll.
Proof.
  destruct roll as [|x roll]; [intros []|].
  intros Hin.
  destruct (find_what_to_keep_spec (x :: roll)) as (_ & Hmax & Hmode);
    [discriminate|].
  apply Hmode in Hin. rewrite Hin. apply Hmax.
Qed.

Lemma valid_hand_nonempty roll : valid_hand roll -> roll <> [].
Proof. intros [Hlen _] ->. discriminate. Qed.

(** On a non-empty list the count is at least 1 and the mode list is not
    empty. *)
Lemma find_what_to_keep_nonempty roll :
  roll <> [] ->
  1 <= snd (find_what_to_keep roll) /\ fst (find_what_to_keep roll) <> [].
Proof.
  intros Hne.
  destruct (find_what_to_keep_spec roll Hne) as ((f0 & Hin & Hf0) & _ & Hmode).
  split.
  - rewrite <- Hf0. now apply freq_pos_In.
  - intros Hnil. apply Hmode in Hf0. rewrite Hnil in Hf0. exact Hf0.
Qed.

(** ** The keep step *)

Lemma keep_dice_all roll keep : Forall (eq keep) (keep_dice roll keep).
Proof.
  apply Forall_forall. intros d Hd. apply filter_In in Hd.
  destruct Hd as [_ Hd]. apply Z.eqb_eq in Hd. now symmetry.
Qed.

Lemma keep_dice_length roll keep : length (keep_dice roll keep) = freq keep roll.
Proof.
  induction roll as [|x roll IH]; [reflexivity|].
  rewrite freq_cons. unfold keep_dice in *. simpl.
  destruct (x =? keep)%Z; simpl; now rewrite IH.
Qed.

Lemma keep_dice_repeat roll keep :
  keep_dice roll keep = repeat keep (freq keep roll).
Proof.
  rewrite <- keep_dice_length.
  apply Forall_eq_repeat. apply keep_dice_all.
Qed.

Lemma freq_app f a b : freq f (a ++ b) = freq f a + freq f b.
Proof. apply count_occ_app. Qed.

Lemma freq_repeat f n : freq f (repeat f n) = n.
Proof. apply count_occ_repeat_eq. reflexivity. Qed.

Lemma freq_le_length f roll : freq f roll <= length roll.
Proof. apply count_occ_bound. Qed.

(** ** One execution of the loop body *)

(** The two ways through the body once the hand is rolled. *)
Lemma loop_body_run s g roll g1 :
  roll_dice (previous_roll s) g = Ret (roll, g1) ->
  roll <> [] ->
  (snd (find_what_to_keep roll) <= 1 /\
   loop_body s g =
   Ret (mk_state (previous_roll s) (S (roll_count s))
                 (snd (find_what_to_keep roll)), g1)) \/
  (1 < snd (find_what_to_keep roll) /\
   exists keep g2,
     random_choice (fst (find_what_to_keep roll)) g1 = Ret (keep, g2) /\
     loop_body s g =
     Ret (mk_state (keep_dice roll keep) (S (roll_count s))
                   (snd (find_what_to_keep roll)), g2)).
Proof.
  intros Hroll Hne. unfold loop_body. rewrite (bind_Ret _ _ _ _ _ Hroll).
  destruct (Nat.ltb_spec 1 (snd (find_what_to_keep roll))) as [Hgt|Hle].
  - right. split; [exact Hgt|].
    destruct (find_what_to_keep_nonempty roll Hne) as [_ Hml].
    destruct (random_choice_ok _ g1 Hml) as (keep & g2 & Hch).
    exists keep, g2. split; [exact Hch|].
    now rewrite (bind_Ret _ _ _ _ _ Hch).
  - left. now split.
Qed.

Lemma kept_inv_faces s :
  kept_inv s -> length (previous_roll s) <= 5 /\ Forall face (previous_roll s).
Proof.
  intros [Hm [[Hnil _]|(keep & Hface & _ & Hrep)]].
  - rewrite Hnil. split; [simpl; lia | constructor].
  - rewrite Hrep, repeat_length. split; [exact Hm|].
    apply Forall_forall. intros d Hd. apply repeat_spec in Hd. now subst.
Qed.

(** One iteration from a state satisfying the invariant: the roll succeeds
    and gives a valid hand that starts with the kept dice, the body
    succeeds, the invariant holds again and the mode count did not drop. *)
Lemma loop_body_inv s g :
  kept_inv s ->
  exists new_roll g1 s' g',
    roll_dice (previous_roll s) g = Ret (previous_roll s ++ new_roll, g1) /\
    valid_hand (previous_roll s ++ new_roll) /\
    loop_body s g = Ret (s', g') /\
    kept_inv s' /\
    mode_count s <= mode_count s' /\
    roll_count s' = S (roll_count s).
Proof.
  intros Hinv. destruct (kept_inv_faces s Hinv) as [Hlen Hfaces].
  destruct (roll_dice_ok _ g Hlen) as (new_roll & g1 & Hroll & Hfive & Hnew).
  set (roll := previous_roll s ++ new_roll) in *.
  assert (Hvalid : valid_hand roll).
  { split; [exact Hfive|]. apply Forall_app. now split. }
  pose proof (valid_hand_nonempty _ Hvalid) as Hne.
  destruct (find_what_to_keep_spec roll Hne) as ((f0 & Hf0in & Hf0) & Hmax & Hmode).
  destruct (find_what_to_keep_nonempty roll Hne) as [Hone _].
  assert (Hbound : snd (find_what_to_keep roll) <= 5).
  { rewrite <- Hf0, <- Hfive. apply freq_le_length. }
  assert (Hmono : mode_count s <= snd (find_what_to_keep roll)).
  { destruct Hinv as [_ [[_ Hle]|(keep & _ & _ & Hrep)]]; [lia|].
    assert (Hkept : mode_count s <= freq keep roll).
    { unfold roll. rewrite freq_app, Hrep, freq_repeat. lia. }
    specialize (Hmax keep). lia. }
  exists new_roll, g1.
  destruct (loop_body_run s g roll g1 Hroll Hne)
    as [[Hle Hbody]|(Hgt & keep & g2 & Hch & Hbody)].
  - eexists _, _.
    split; [exact Hroll|]. split; [exact Hvalid|]. split; [exact Hbody|].
    cbn [previous_roll roll_count mode_count].
    split; [|split; [exact Hmono | reflexivity]]. split; [exact Hbound|].
    left. split; [|exact Hle].
    destruct Hinv as [_ [[Hnil _]|(keep & _ & Htwo & _)]]; [exact Hnil|lia].
  - eexists _, _.
    split; [exact Hroll|]. split; [exact Hvalid|]. split; [exact Hbody|].
    cbn [previous_roll roll_count mode_count].
    split; [|split; [exact Hmono | reflexivity]]. split; [exact Hbound|].
    right. exists keep.
    apply random_choice_In in Hch. apply Hmode in Hch.
    assert (Hin : In keep roll) by (apply freq_pos_In; lia).
    destruct Hvalid as [_ Hall]. rewrite Forall_forall in Hall.
    split; [exact (Hall _ Hin)|]. split; [exact Hgt|].
    now rewrite keep_dice_repeat, Hch.
Qed.

(** ** The loop *)

Lemma init_inv : kept_inv init_state.
Proof. split; [cbn; lia|]. left. split; [reflexivity | cbn; lia]. Qed.

Lemma reaches_inv g0 k s g :
  loop_reaches g0 k s g -> kept_inv s /\ roll_count s = k.
Proof.
  induction 1 as [|k s g s' g' Hreach [IHinv IHk] Hcond Hbody].
  - split; [apply init_inv | reflexivity].
  - destruct (loop_body_inv s g IHinv)
      as (new_roll & g1 & s2 & g2 & _ & _ & Hbody' & Hinv' & _ & Hcount).
    rewrite Hbody in Hbody'. injection Hbody' as <- <-.
    split; [exact Hinv' | lia].
Qed.

Lemma reaches_bound g0 k s g : loop_reaches g0 k s g -> k <= 3.
Proof.
  intros H. inversion H as [|k' s0 gg ? ? Hreach Hcond Hbody]; subst; [lia|].
  apply reaches_inv in Hreach. destruct Hreach as [_ Hk].
  unfold loop_cond in Hcond. apply andb_true_iff in Hcond.
  destruct Hcond as [Hlt _]. apply Nat.ltb_lt in Hlt. lia.
Qed.

Lemma reaches_det g0 k s g :
  loop_reaches g0 k s g ->
  forall s' g', loop_reaches g0 k s' g' -> s = s' /\ g = g'.
Proof.
  induction 1 as [|k s g s1 g1 Hreach IH Hcond Hbody]; intros s' g' H'.
  - inversion H'; subst. now split.
  - inversion H' as [|? s2 g2 ? ? Hreach' Hcond' Hbody']; subst.
    destruct (IH _ _ Hreach') as [<- <-].
    rewrite Hbody in Hbody'. injection Hbody' as <- <-. now split.
Qed.



(** With enough budget for the rolls that may remain, the loop returns,
    in a state where its test fails. *)
Lemma while_run fuel : forall g0 j s g,
  loop_reaches g0 j s g -> 3 - j <= fuel ->
  exists k s' g',
    while loop_cond loop_body fuel s g = Ret (s', g') /\
    loop_reaches g0 k s' g' /\ loop_cond s' = false.
Proof.
  induction fuel as [|fuel IH]; intros g0 j s g Hreach Hfuel.
  - exists j, s, g. destruct (reaches_inv _ _ _ _ Hreach) as [_ Hj].
    assert (Hcond : loop_cond s = false).
    { unfold loop_cond. apply andb_false_iff. left. apply Nat.ltb_ge. lia. }
    cbn. rewrite Hcond. now repeat split.
  - destruct (loop_cond s) eqn:Hcond.
    + destruct (reaches_inv _ _ _ _ Hreach) as [Hinv _].
      destruct (loop_body_inv s g Hinv)
        as (new_roll & g1 & s1 & g2 & _ & _ & Hbody & _).
      destruct (IH g0 (S j) s1 g2) as (k & s' & g' & Hrun & Hk & Hstop).
      { econstructor; eassumption. }
      { lia. }
      exists k, s', g'. split; [|now split].
      cbn. rewrite Hcond, (bind_Ret _ _ _ _ _ Hbody). exact Hrun.
    + exists j, s, g. cbn. rewrite Hcond. now repeat split.
Qed.

Lemma turn_loop_run fuel g0 :
  3 <= fuel ->
  exists k s g,
    turn_loop fuel g0 = Ret (s, g) /\
    loop_reaches g0 k s g /\ loop_cond s = false.
Proof.
  intros Hfuel. apply (while_run fuel g0 0); [constructor | lia].
Qed.

(** ** The turn as a whole *)

Lemma play_run fuel g0 s g :
  turn_loop fuel g0 = Ret (s, g) ->
  play_one_round_of_yahtzee fuel g0 =
  Ret (if mode_count s =? 5 then 1%Z else 0%Z, g).
Proof.
  intros Hloop. unfold play_one_round_of_yahtzee.
  rewrite (bind_Ret _ _ _ _ _ Hloop). now destruct (mode_count s =? 5).
Qed.

Lemma play_ok fuel g0 :
  3 <= fuel ->
  exists y g, play_one_round_of_yahtzee fuel g0 = Ret (y, g) /\
              (y = 0%Z \/ y = 1%Z).
Proof.
  intros Hfuel.
  destruct (turn_loop_run fuel g0 Hfuel) as (k & s & g & Hloop & _).
  eexists _, g. split; [exact (play_run _ _ _ _ Hloop)|].
  destruct (mode_count s =? 5); auto.
Qed.

(** ** The sampling loop *)

Lemma trials_run fuel n g ys g' :
  trials fuel n g ys g' ->
  forall acc, run_trials fuel n acc g = Ret (acc ++ ys, g').
Proof.
  induction 1 as [g|n g y g1 ys g2 Hplay Htrials IH]; intros acc; cbn.
  - now rewrite app_nil_r.
  - rewrite (bind_Ret _ _ _ _ _ Hplay), IH, <- app_assoc. reflexivity.
Qed.

Lemma trials_ok fuel n : forall g,
  3 <= fuel -> exists ys g', trials fuel n g ys g'.
Proof.
  induction n as [|n IH]; intros g Hfuel.
  - exists [], g. constructor.
  - destruct (play_ok fuel g Hfuel) as (y & g1 & Hplay & _).
    destruct (IH g1 Hfuel) as (ys & g2 & Htrials).
    exists (y :: ys), g2. econstructor; eassumption.
Qed.

Lemma trials_length fuel n g ys g' :
  trials fuel n g ys g' -> length ys = n.
Proof. induction 1; cbn; congruence. Qed.

Lemma play_bit fuel g y g' :
  play_one_round_of_yahtzee fuel g = Ret (y, g') -> y = 0%Z \/ y = 1%Z.
Proof.
  unfold play_one_round_of_yahtzee. intros H. inv_bind H.
  destruct (mode_count a =? 5); injection H as <- _; auto.
Qed.

Lemma trials_bits fuel n g ys g' :
  trials fuel n g ys g' -> Forall (fun y => y = 0%Z \/ y = 1%Z) ys.
Proof.
  induction 1 as [g|n g y g1 ys g2 Hplay Htrials IH]; constructor; auto.
  exact (play_bit _ _ _ _ Hplay).
Qed.

Lemma estimate_run fuel n g ys g' :
  trials fuel (Z.to_nat n) g ys g' ->
  estimate fuel n g = Ret (np_mean ys, g').
Proof.
  intros Htrials. unfold estimate.
  now rewrite (bind_Ret _ _ _ _ _ (trials_run _ _ _ _ _ Htrials [])).
Qed.

(** The sum of 0/1 outcomes counts the ones. *)
Lemma sum_bits ys :
  Forall (fun y => y = 0%Z \/ y = 1%Z) ys ->
  fold_right Z.add 0%Z ys = Z.of_nat (count_occ Z.eq_dec ys 1%Z).
Proof.
  induction 1 as [|y ys [->| ->] _ IH]; cbn [fold_right count_occ].
  - reflexivity.
  - destruct (Z.eq_dec 0 1); [discriminate|]. now rewrite IH.
  - destruct (Z.eq_dec 1 1); [|congruence]. rewrite IH. lia.
Qed.

Lemma sum_zeros ys :
  Forall (eq 0%Z) ys -> fold_right Z.add 0%Z ys = 0%Z.
Proof. induction 1 as [|y ys <- _ IH]; cbn; auto. Qed.

Lemma Zpos_of_nat n : n <> 0 -> Z.pos (Pos.of_nat n) = Z.of_nat n.
Proof.
  intros Hn. rewrite <- positive_nat_Z. now rewrite Nat2Pos.id.
Qed.

(** * The properties of the specification *)

(** ** Mode detection *)

(** C3: for every hand of five dice with faces in 1..6, the count returned
    by [find_what_to_keep] is the maximum frequency of a face in the hand
    (it is the frequency of a die of the hand and no face is more
    frequent), and the returned list holds exactly the faces whose
    frequency is that maximum. *)
Theorem find_what_to_keep_mode (roll : list Z) :
  valid_hand roll ->
  (exists f, In f roll /\ freq f roll = snd (find_what_to_keep roll)) /\
  (forall f, freq f roll <= snd (find_what_to_keep roll)) /\
  (forall f, In f (fst (find_what_to_keep roll)) <->
             freq f roll = snd (find_what_to_keep roll)).
Proof.
  intros Hvalid. apply find_what_to_keep_spec.
  now apply valid_hand_nonempty.
Qed.

Lemma hand_24421_valid : valid_hand [2; 4; 4; 2; 1]%Z.
Proof.
  split; [reflexivity|].
  repeat constructor; discriminate.
Defined.

Lemma find_what_to_keep_mode_witness :
  valid_hand [2; 4; 4; 2; 1]%Z /\
  ((exists f, In f [2; 4; 4; 2; 1]%Z /\
              freq f [2; 4; 4; 2; 1]%Z =
              snd (find_what_to_keep [2; 4; 4; 2; 1]%Z)) /\
   (forall f, freq f [2; 4; 4; 2; 1]%Z <=
              snd (find_what_to_keep [2; 4; 4; 2; 1]%Z)) /\
   (forall f, In f (fst (find_what_to_keep [2; 4; 4; 2; 1]%Z)) <->
              freq f [2; 4; 4; 2; 1]%Z =
              snd (find_what_to_keep [2; 4; 4; 2; 1]%Z))).
Proof.
  split; [exact hand_24421_valid|].
  apply (find_what_to_keep_mode [2; 4; 4; 2; 1]%Z). exact hand_24421_valid.
Defined.

(** The two pairs tie, in the order the hand shows them. *)
Example find_what_to_keep_two_pairs :
  find_what_to_keep [2; 4; 4; 2; 1]%Z = ([2; 4]%Z, 2).
Proof. reflexivity. Qed.

Example find_what_to_keep_full_house :
  find_what_to_keep [2; 3; 3; 2; 3]%Z = ([3]%Z, 3).
Proof. reflexivity. Qed.

(** C8, as the specification words it, does not hold: there is no list and
    no face of the returned mode list that some other face beats in
    frequency.  The items come sorted by descending count, so the running
    maximum is final after the first item. *)
Lemma mode_list_never_below_max :
  ~ exists (roll : list Z) (f f' : Z),
      In f (fst (find_what_to_keep roll)) /\ freq f roll < freq f' roll.
Proof.
  intros (roll & f & f' & Hin & Hlt).
  pose proof (mode_list_max roll f f' Hin). lia.
Qed.

(** C8 (amended): every face of the list returned by [find_what_to_keep]
    has the maximum frequency: no face of the hand is strictly more
    frequent. *)
Theorem mode_list_only_maximal (roll : list Z) (f : Z) :
  In f (fst (find_what_to_keep roll)) ->
  forall f', freq f' roll <= freq f roll.
Proof.
  intros Hin f'. now apply mode_list_max.
Qed.

Lemma mode_list_only_maximal_witness :
  In 4%Z (fst (find_what_to_keep [2; 4; 4; 2; 1]%Z)) /\
  forall f', freq f' [2; 4; 4; 2; 1]%Z <= freq 4%Z [2; 4; 4; 2; 1]%Z.
Proof.
  assert (Hin : In 4%Z (fst (find_what_to_keep [2; 4; 4; 2; 1]%Z))).
  { cbn. right. left. reflexivity. }
  split; [exact Hin|].
  exact (mode_list_only_maximal [2; 4; 4; 2; 1]%Z 4%Z Hin).
Defined.

(** ** The turn simulator *)

(** The state after a roll comes from a valid hand, and its mode count is
    the count [find_what_to_keep] gave for that hand. *)
Lemma reaches_last_roll g0 k s g :
  loop_reaches g0 (S k) s g ->
  exists s0 g1 hand g2,
    loop_reaches g0 k s0 g1 /\
    loop_cond s0 = true /\
    roll_dice (previous_roll s0) g1 = Ret (hand, g2) /\
    loop_body s0 g1 = Ret (s, g) /\
    valid_hand hand /\
    mode_count s = snd (find_what_to_keep hand).
Proof.
  intros H. inversion H as [|k' s0 g1 ? ? Hreach Hcond Hbody]; subst.
  destruct (reaches_inv _ _ _ _ Hreach) as [Hinv _].
  destruct (loop_body_inv s0 g1 Hinv)
    as (new_roll & g2 & s' & g' & Hroll & Hvalid & _).
  exists s0, g1, (previous_roll s0 ++ new_roll), g2.
  split; [exact Hreach|]. split; [exact Hcond|]. split; [exact Hroll|].
  split; [exact Hbody|]. split; [exact Hvalid|].
  destruct (loop_body_run s0 g1 _ g2 Hroll (valid_hand_nonempty _ Hvalid))
    as [[_ Hb]|(_ & keep & g3 & _ & Hb)];
    rewrite Hbody in Hb; injection Hb as -> _; reflexivity.
Qed.

(** C1: for every random source, the turn returns 1 ("true") if and only
    if the best mode count at loop exit is 5, and 0 ("false") otherwise.
    The mode count at loop exit is that of the last hand rolled: the
    variable [mode_count] is then the frequency of a die of that hand, and
    no face of the hand is more frequent.  Any budget of at least three
    loop iterations lets the turn return. *)
Theorem play_true_iff_yahtzee (fuel : nat) (g0 : rng) :
  3 <= fuel ->
  exists s g r,
    turn_loop fuel g0 = Ret (s, g) /\
    play_one_round_of_yahtzee fuel g0 = Ret (r, g) /\
    (exists k s0 g1 hand g2,
       loop_reaches g0 k s0 g1 /\
       loop_cond s0 = true /\
       roll_dice (previous_roll s0) g1 = Ret (hand, g2) /\
       loop_body s0 g1 = Ret (s, g) /\
       valid_hand hand /\
       (exists f, In f hand /\ freq f hand = mode_count s) /\
       (forall f, freq f hand <= mode_count s)) /\
    (r = 1%Z <-> mode_count s = 5) /\
    (r = 0%Z <-> mode_count s <> 5).
Proof.
  intros Hfuel.
  destruct (turn_loop_run fuel g0 Hfuel) as (k & s & g & Hloop & Hreach & Hstop).
  exists s, g, (if mode_count s =? 5 then 1%Z else 0%Z).
  split; [exact Hloop|]. split; [exact (play_run _ _ _ _ Hloop)|].
  split.
  { destruct k as [|k].
    { inversion Hreach; subst. discriminate Hstop. }
    destruct (reaches_last_roll _ _ _ _ Hreach)
      as (s0 & g1 & hand & g2 & Hk & Hcond & Hroll & Hbody & Hvalid & Hmode).
    exists k, s0, g1, hand, g2.
    destruct (find_what_to_keep_spec hand (valid_hand_nonempty _ Hvalid))
      as (Hattained & Hmax & _).
    rewrite <- Hmode in Hattained, Hmax.
    repeat (split; [assumption|]). exact Hmax. }
  destruct (Nat.eqb_spec (mode_count s) 5) as [Heq|Hne].
  - split; split; intros; auto; [discriminate | contradiction].
  - split; split; intros; auto; [discriminate | contradiction].
Qed.

Lemma play_true_iff_yahtzee_witness :
  3 <= 3 /\
  exists s g r,
    turn_loop 3 (seq_rng 6 0) = Ret (s, g) /\
    play_one_round_of_yahtzee 3 (seq_rng 6 0) = Ret (r, g) /\
    (exists k s0 g1 hand g2,
       loop_reaches (seq_rng 6 0) k s0 g1 /\
       loop_cond s0 = true /\
       roll_dice (previous_roll s0) g1 = Ret (hand, g2) /\
       loop_body s0 g1 = Ret (s, g) /\
       valid_hand hand /\
       (exists f, In f hand /\ freq f hand = mode_count s) /\
       (forall f, freq f hand <= mode_count s)) /\
    (r = 1%Z <-> mode_count s = 5) /\
    (r = 0%Z <-> mode_count s <> 5).
Proof.
  split; [apply le_n|].
  apply (play_true_iff_yahtzee 3 (seq_rng 6 0)). apply le_n.
Defined.

(** A source whose dice all show 1 gives a Yahtzee on the first roll; one
    that counts 0, 1, 2, ... never shows a pair. *)
Example play_rigged_same_face :
  play_one_round_of_yahtzee 3 (seq_rng 6 0) = Ret (1%Z, seq_rng_at 6 0 5 1).
Proof. reflexivity. Qed.

Example play_rigged_cycle :
  play_one_round_of_yahtzee 3 (seq_rng 1 0) = Ret (0%Z, seq_rng_at 1 0 15 0).
Proof. reflexivity. Qed.



(** With all dice equal the loop stops after one roll, whatever budget is
    left. *)
Example turn_loop_early_exit :
  turn_loop 3 (seq_rng 6 0) =
  Ret (mk_state [1; 1; 1; 1; 1]%Z 1 5, seq_rng_at 6 0 5 1).
Proof. reflexivity. Qed.

(** C4: for every valid hand and every face chosen by the tie-break, after
    the keep step every kept die shows the chosen face and the number of
    kept dice is the number of dice of the hand showing that face. *)
Theorem keep_step_exact (s : loop_state) (g g1 g2 : rng)
    (roll : list Z) (keep : Z) :
  valid_hand roll ->
  roll_dice (previous_roll s) g = Ret (roll, g1) ->
  1 < snd (find_what_to_keep roll) ->
  random_choice (fst (find_what_to_keep roll)) g1 = Ret (keep, g2) ->
  exists s',
    loop_body s g = Ret (s', g2) /\
    previous_roll s' = keep_dice roll keep /\
    Forall (eq keep) (previous_roll s') /\
    length (previous_roll s') = freq keep roll.
Proof.
  intros Hvalid Hroll Hgt Hch.
  destruct (loop_body_run s g roll g1 Hroll (valid_hand_nonempty _ Hvalid))
    as [[Hle _]|(_ & keep' & g2' & Hch' & Hbody)]; [lia|].
  rewrite Hch in Hch'. injection Hch' as <- <-.
  eexists. split; [exact Hbody|]. cbn [previous_roll].
  split; [reflexivity|].
  split; [apply keep_dice_all | apply keep_dice_length].
Qed.

Lemma hand_11234_valid : valid_hand [1; 1; 2; 3; 4]%Z.
Proof.
  split; [reflexivity|].
  repeat constructor; discriminate.
Defined.

Lemma keep_step_exact_witness :
  valid_hand [1; 1; 2; 3; 4]%Z /\
  roll_dice (previous_roll (mk_state [1; 1]%Z 1 2)) (seq_rng_at 1 0 7 1) =
    Ret ([1; 1; 2; 3; 4]%Z, seq_rng_at 1 0 10 1) /\
  1 < snd (find_what_to_keep [1; 1; 2; 3; 4]%Z) /\
  random_choice (fst (find_what_to_keep [1; 1; 2; 3; 4]%Z))
      (seq_rng_at 1 0 10 1) = Ret (1%Z, seq_rng_at 1 0 10 2) /\
  exists s',
    loop_body (mk_state [1; 1]%Z 1 2) (seq_rng_at 1 0 7 1) =
      Ret (s', seq_rng_at 1 0 10 2) /\
    previous_roll s' = keep_dice [1; 1; 2; 3; 4]%Z 1%Z /\
    Forall (eq 1%Z) (previous_roll s') /\
    length (previous_roll s') = freq 1%Z [1; 1; 2; 3; 4]%Z.
Proof.
  split; [exact hand_11234_valid|].
  split; [reflexivity|]. split; [apply le_n|]. split; [reflexivity|].
  apply (keep_step_exact (mk_state [1; 1]%Z 1 2) (seq_rng_at 1 0 7 1)
           (seq_rng_at 1 0 10 1) (seq_rng_at 1 0 10 2) [1; 1; 2; 3; 4]%Z 1%Z).
  - exact hand_11234_valid.
  - reflexivity.
  - apply le_n.
  - reflexivity.
Defined.

(** C9: for every hand whose maximum frequency is 1 (no two dice share a
    face), the keep step does not fire: the iteration leaves the kept dice
    as they were and draws no tie-break. *)
Theorem no_pair_keeps_previous (s : loop_state) (g g1 : rng) (roll : list Z) :
  roll_dice (previous_roll s) g = Ret (roll, g1) ->
  (forall f, freq f roll <= 1) ->
  exists s',
    loop_body s g = Ret (s', g1) /\
    previous_roll s' = previous_roll s.
Proof.
  intros Hroll Hone.
  assert (Hcount : snd (find_what_to_keep roll) <= 1).
  { destruct roll as [|x roll]; [cbn; lia|].
    destruct (find_what_to_keep_spec (x :: roll)) as ((f0 & _ & <-) & _);
      [discriminate | apply Hone]. }
  unfold loop_body. rewrite (bind_Ret _ _ _ _ _ Hroll).
  destruct (Nat.ltb_spec 1 (snd (find_what_to_keep roll))) as [Hgt|_]; [lia|].
  eexists. split; reflexivity.
Qed.

Lemma hand_12345_no_pair : forall f, freq f [1; 2; 3; 4; 5]%Z <= 1.
Proof.
  intros f. unfold freq. cbn [count_occ].
  destruct (Z.eq_dec 1 f) as [<-|H1]; [cbn; apply le_n|].
  destruct (Z.eq_dec 2 f) as [<-|H2]; [cbn; apply le_n|].
  destruct (Z.eq_dec 3 f) as [<-|H3]; [cbn; apply le_n|].
  destruct (Z.eq_dec 4 f) as [<-|H4]; [cbn; apply le_n|].
  destruct (Z.eq_dec 5 f) as [<-|H5]; [cbn; apply le_n|].
  apply Nat.le_0_1.
Defined.

Lemma no_pair_keeps_previous_witness :
  roll_dice (previous_roll init_state) (seq_rng 1 0) =
    Ret ([1; 2; 3; 4; 5]%Z, seq_rng_at 1 0 5 0) /\
  (forall f, freq f [1; 2; 3; 4; 5]%Z <= 1) /\
  exists s',
    loop_body init_state (seq_rng 1 0) = Ret (s', seq_rng_at 1 0 5 0) /\
    previous_roll s' = previous_roll init_state.
Proof.
  split; [reflexivity|]. split; [exact hand_12345_no_pair|].
  apply (no_pair_keeps_previous init_state (seq_rng 1 0) (seq_rng_at 1 0 5 0)
           [1; 2; 3; 4; 5]%Z).
  - reflexivity.
  - exact hand_12345_no_pair.
Defined.

(** C10: at every iteration of the loop the kept dice are at most five,
    each with a face in 1..6; [roll_dice] therefore returns a hand of
    exactly five such dice that starts with the kept dice unchanged; and
    the mode count after the iteration is at least the one before it. *)
Theorem turn_invariant (g0 : rng) (k : nat) (s : loop_state) (g : rng) :
  loop_reaches g0 k s g ->
  (length (previous_roll s) <= 5 /\ Forall face (previous_roll s)) /\
  exists new_roll g1 s' g',
    roll_dice (previous_roll s) g = Ret (previous_roll s ++ new_roll, g1) /\
    valid_hand (previous_roll s ++ new_roll) /\
    loop_body s g = Ret (s', g') /\
    mode_count s <= mode_count s'.
Proof.
  intros Hreach. destruct (reaches_inv _ _ _ _ Hreach) as [Hinv _].
  split; [exact (kept_inv_faces s Hinv)|].
  destruct (loop_body_inv s g Hinv)
    as (new_roll & g1 & s' & g' & Hroll & Hvalid & Hbody & _ & Hmono & _).
  now exists new_roll, g1, s', g'.
Qed.

Lemma reaches_after_one_roll :
  loop_reaches (seq_rng 3 0) 1 (mk_state [1; 1; 1]%Z 1 3) (seq_rng_at 3 0 5 1).
Proof.
  apply (reaches_step (seq_rng 3 0) 0 init_state (seq_rng 3 0)).
  - apply reaches_init.
  - reflexivity.
  - reflexivity.
Defined.

Lemma turn_invariant_witness :
  loop_reaches (seq_rng 3 0) 1 (mk_state [1; 1; 1]%Z 1 3) (seq_rng_at 3 0 5 1) /\
  (length (previous_roll (mk_state [1; 1; 1]%Z 1 3)) <= 5 /\
   Forall face (previous_roll (mk_state [1; 1; 1]%Z 1 3))) /\
  exists new_roll g1 s' g',
    roll_dice (previous_roll (mk_state [1; 1; 1]%Z 1 3)) (seq_rng_at 3 0 5 1) =
      Ret (previous_roll (mk_state [1; 1; 1]%Z 1 3) ++ new_roll, g1) /\
    valid_hand (previous_roll (mk_state [1; 1; 1]%Z 1 3) ++ new_roll) /\
    loop_body (mk_state [1; 1; 1]%Z 1 3) (seq_rng_at 3 0 5 1) = Ret (s', g') /\
    mode_count (mk_state [1; 1; 1]%Z 1 3) <= mode_count s'.
Proof.
  split; [exact reaches_after_one_roll|].
  exact (turn_invariant (seq_rng 3 0) 1 (mk_state [1; 1; 1]%Z 1 3)
           (seq_rng_at 3 0 5 1) reaches_after_one_roll).
Defined.

(** ** The Monte Carlo estimate *)

(** C7: for every positive [n] and every random source, the estimate is
    the outcome of exactly [n] invocations of the turn simulator, and its
    value is the number of 1 ("true") outcomes divided by [n], a number
    between 0 and 1. *)
Theorem estimate_mean (fuel : nat) (n : Z) (g : rng) :
  3 <= fuel ->
  (0 < n)%Z ->
  exists ys g' q,
    trials fuel (Z.to_nat n) g ys g' /\
    length ys = Z.to_nat n /\
    estimate fuel n g = Ret (Finite q, g') /\
    (q == Z.of_nat (count_occ Z.eq_dec ys 1%Z) # Z.to_pos n)%Q /\
    (0 <= q <= 1)%Q.
Proof.
  intros Hfuel Hn.
  destruct (trials_ok fuel (Z.to_nat n) g Hfuel) as (ys & g' & Htrials).
  pose proof (trials_length _ _ _ _ _ Htrials) as Hlen.
  pose proof (sum_bits _ (trials_bits _ _ _ _ _ Htrials)) as Hsum.
  assert (Hpos : length ys <> 0) by lia.
  pose proof (count_occ_bound Z.eq_dec 1%Z ys) as Hcount.
  exists ys, g'.
  exists (Qred (fold_right Z.add 0%Z ys # Pos.of_nat (length ys))).
  split; [exact Htrials|]. split; [exact Hlen|]. split.
  { rewrite (estimate_run _ _ _ _ _ Htrials).
    destruct ys; [contradiction | reflexivity]. }
  assert (Hq : (Qred (fold_right Z.add 0%Z ys # Pos.of_nat (length ys)) ==
                Z.of_nat (count_occ Z.eq_dec ys 1%Z) # Z.to_pos n)%Q).
  { rewrite Qred_correct, Hsum. unfold Qeq. cbn [Qnum Qden].
    rewrite Zpos_of_nat by exact Hpos. rewrite Z2Pos.id by exact Hn. lia. }
  split; [exact Hq|]. rewrite Hq.
  unfold Qle. cbn [Qnum Qden]. rewrite Z2Pos.id by exact Hn. lia.
Qed.

Lemma estimate_mean_witness :
  3 <= 3 /\ (0 < 2)%Z /\
  exists ys g' q,
    trials 3 (Z.to_nat 2) (lucky_rng_at 0 0) ys g' /\
    length ys = Z.to_nat 2 /\
    estimate 3 2 (lucky_rng_at 0 0) = Ret (Finite q, g') /\
    (q == Z.of_nat (count_occ Z.eq_dec ys 1%Z) # Z.to_pos 2)%Q /\
    (0 <= q <= 1)%Q.
Proof.
  split; [apply le_n|]. split; [reflexivity|].
  apply (estimate_mean 3 2 (lucky_rng_at 0 0)); [apply le_n | reflexivity].
Defined.

(** One success in two turns. *)
Example estimate_half :
  run_trials 3 2 [] (lucky_rng_at 0 0) = Ret ([1; 0]%Z, lucky_rng_at 20 1) /\
  estimate 3 2 (lucky_rng_at 0 0) = Ret (Finite (1 # 2), lucky_rng_at 20 1).
Proof. split; reflexivity. Qed.


(** Two turns on the cycling dice 1, 2, 3, 4, 5, 6, 1, ...: both fail. *)
Lemma two_failed_trials :
  trials 3 (Z.to_nat 2) (seq_rng 1 0) [0; 0]%Z (seq_rng_at 1 0 30 0).
Proof.
  apply (trials_S 3 1 _ 0%Z (seq_rng_at 1 0 15 0)); [reflexivity|].
  apply (trials_S 3 0 _ 0%Z (seq_rng_at 1 0 30 0)); [reflexivity|].
  apply trials_O.
Defined.

(** C5, as the specification words it, does not hold: on a run whose two
    turns both fail the estimate is 0, and the cell that computes the
    expected number of turns returns a number; nothing fails with an
    UndefinedResult condition. *)
Lemma all_fail_not_undefined_result :
  trials 3 (Z.to_nat 2) (seq_rng 1 0) [0; 0]%Z (seq_rng_at 1 0 30 0) /\
  estimate 3 2 (seq_rng 1 0) = Ret (Finite 0, seq_rng_at 1 0 30 0) /\
  expected_turns <> Raise UndefinedResult.
Proof.
  split; [exact two_failed_trials|].
  split; [reflexivity | discriminate].
Qed.

(** C5 (amended): if all [n] trials fail, with [n] positive, the estimate
    is 0 and the sampling cell raises nothing; the cell that computes the
    expected number of turns divides the literals [1 / 0.046] whatever the
    estimate, and returns a number between 21 and 22 without raising. *)
Theorem all_fail_zero_estimate (fuel : nat) (n : Z) (g : rng)
    (ys : list Z) (g' : rng) :
  (0 < n)%Z ->
  trials fuel (Z.to_nat n) g ys g' ->
  Forall (eq 0%Z) ys ->
  estimate fuel n g = Ret (Finite 0, g') /\
  exists turns,
    expected_turns = Ret (Finite turns) /\ (21 < turns < 22)%Q.
Proof.
  intros Hn Htrials Hzero. split.
  - rewrite (estimate_run _ _ _ _ _ Htrials).
    pose proof (trials_length _ _ _ _ _ Htrials) as Hlen.
    destruct ys as [|y ys]; [cbn in Hlen; lia|].
    unfold np_mean. rewrite (sum_zeros _ Hzero). reflexivity.
  - exists (500 # 23)%Q. split; [reflexivity|]. split; reflexivity.
Qed.

Lemma all_fail_zero_estimate_witness :
  (0 < 2)%Z /\
  trials 3 (Z.to_nat 2) (seq_rng 1 0) [0; 0]%Z (seq_rng_at 1 0 30 0) /\
  Forall (eq 0%Z) [0; 0]%Z /\
  estimate 3 2 (seq_rng 1 0) = Ret (Finite 0, seq_rng_at 1 0 30 0) /\
  exists turns,
    expected_turns = Ret (Finite turns) /\ (21 < turns < 22)%Q.
Proof.
  split; [reflexivity|]. split; [exact two_failed_trials|].
  split; [repeat constructor|].
  apply (all_fail_zero_estimate 3 2 (seq_rng 1 0) [0; 0]%Z (seq_rng_at 1 0 30 0)).
  - reflexivity.
  - exact two_failed_trials.
  - repeat constructor.
Defined.

(** C6, as the specification words it, does not hold: with [n = 0] the
    cell raises nothing; it returns NaN, the mean of the empty list. *)
Lemma estimate_zero_not_invalid_argument :
  estimate 3 0 (seq_rng 1 0) = Ret (NaN, seq_rng 1 0) /\
  estimate 3 0 (seq_rng 1 0) <> Raise InvalidArgument.
Proof. split; [reflexivity | discriminate]. Qed.

(** C6 (amended): for every [n <= 0] the cell runs no trial, leaves the
    random sources untouched and returns NaN without raising. *)
Theorem estimate_nonpositive (fuel : nat) (n : Z) (g : rng) :
  (n <= 0)%Z ->
  trials fuel (Z.to_nat n) g [] g /\
  run_trials fuel (Z.to_nat n) [] g = Ret ([], g) /\
  estimate fuel n g = Ret (NaN, g).
Proof.
  intros Hn. assert (Hz : Z.to_nat n = 0) by lia.
  unfold estimate. rewrite Hz. repeat split. constructor.
Qed.

Lemma estimate_nonpositive_witness :
  (-3 <= 0)%Z /\
  trials 3 (Z.to_nat (-3)) (seq_rng 1 0) [] (seq_rng 1 0) /\
  run_trials 3 (Z.to_nat (-3)) [] (seq_rng 1 0) = Ret ([], seq_rng 1 0) /\
  estimate 3 (-3) (seq_rng 1 0) = Ret (NaN, seq_rng 1 0).
Proof.
  split; [discriminate|].
  apply (estimate_nonpositive 3 (-3) (seq_rng 1 0)). discriminate.
Defined.

(** * Further properties of the notebook *)

(** ** What the generators are asked for *)

Lemma advance_0 g : advance g 0 0 = g.
Proof. destruct g. unfold advance. cbn. now rewrite !Nat.add_0_r. Qed.

Lemma advance_advance g a b a' b' :
  advance (advance g a b) a' b' = advance g (a + a') (b + b').
Proof. unfold advance. cbn. now rewrite !Nat.add_assoc. Qed.

Lemma np_next_advance g :
  np_next 1 7 g =
  Ret ((1 + Z.of_nat (np_draws g (np_pos g)) mod 6)%Z, advance g 1 0).
Proof.
  unfold np_next, advance. now rewrite Nat.add_1_r, Nat.add_0_r.
Qed.

Lemma fresh_dice_S g n :
  fresh_dice g (S n) =
  (1 + Z.of_nat (np_draws g (np_pos g)) mod 6)%Z :: fresh_dice (advance g 1 0) n.
Proof.
  unfold fresh_dice. cbn [seq map]. rewrite Nat.add_0_r. f_equal.
  rewrite <- seq_shift, map_map. apply map_ext. intros i. cbn.
  now rewrite Nat.add_1_r, Nat.add_succ_r.
Qed.

(** [n] draws are the next [n] raw values, and move the dice cursor by
    [n]. *)
Lemma np_draw_many_fresh n : forall g,
  np_draw_many 1 7 n g = Ret (fresh_dice g n, advance g n 0).
Proof.
  induction n as [|n IH]; intros g.
  - cbn. now rewrite advance_0.
  - cbn [np_draw_many]. rewrite (bind_Ret _ _ _ _ _ (np_next_advance g)).
    rewrite (bind_Ret _ _ _ _ _ (IH _)). unfold ret.
    now rewrite fresh_dice_S, advance_advance.
Qed.

Lemma fresh_dice_length g n : length (fresh_dice g n) = n.
Proof. unfold fresh_dice. now rewrite length_map, length_seq. Qed.

Lemma fresh_dice_faces g n : Forall face (fresh_dice g n).
Proof.
  apply Forall_forall. intros d Hd. apply in_map_iff in Hd.
  destruct Hd as (i & <- & _). unfold face.
  pose proof (Z.mod_pos_bound (Z.of_nat (np_draws g (np_pos g + i))) 6). lia.
Qed.

Lemma roll_dice_fresh previous g :
  length previous <= 5 ->
  roll_dice previous g =
  Ret (previous ++ fresh_dice g (5 - length previous),
       advance g (5 - length previous) 0).
Proof.
  intros Hlen. unfold roll_dice, np_random_randint.
  change (7 <=? 1)%Z with false. cbv iota.
  destruct (Z.ltb_spec (5 - Z.of_nat (length previous)) 0) as [Hneg|_]; [lia|].
  replace (Z.to_nat (5 - Z.of_nat (length previous))) with (5 - length previous)
    by lia.
  now rewrite (bind_Ret _ _ _ _ _ (np_draw_many_fresh _ g)).
Qed.

Lemma random_choice_advance seq g keep g1 :
  random_choice seq g = Ret (keep, g1) -> g1 = advance g 0 1.
Proof.
  unfold random_choice. destruct seq as [|x seq]; [discriminate|].
  intros H. injection H as _ <-. unfold advance.
  now rewrite Nat.add_0_r, Nat.add_1_r.
Qed.

(** X1: with at most five dice kept, each a face in 1..6, [roll_dice]
    returns the kept dice followed by fresh dice with faces in 1..6, a
    valid hand of five dice; it draws exactly the missing number of dice
    and leaves the tie-break generator alone. *)
Theorem roll_dice_fills_hand (previous : list Z) (g : rng) :
  length previous <= 5 ->
  Forall face previous ->
  exists new_roll,
    roll_dice previous g =
      Ret (previous ++ new_roll, advance g (5 - length previous) 0) /\
    length new_roll = 5 - length previous /\
    Forall face new_roll /\
    valid_hand (previous ++ new_roll).
Proof.
  intros Hlen Hfaces. exists (fresh_dice g (5 - length previous)).
  split; [now apply roll_dice_fresh|].
  split; [apply fresh_dice_length|].
  split; [apply fresh_dice_faces|].
  split.
  - rewrite length_app, fresh_dice_length. lia.
  - apply Forall_app. split; [exact Hfaces | apply fresh_dice_faces].
Qed.

Lemma two_fours_faces : Forall face [4; 4]%Z.
Proof. repeat constructor; discriminate. Defined.

Lemma roll_dice_fills_hand_witness :
  length [4; 4]%Z <= 5 /\
  Forall face [4; 4]%Z /\
  exists new_roll,
    roll_dice [4; 4]%Z (seq_rng 1 0) =
      Ret ([4; 4]%Z ++ new_roll,
           advance (seq_rng 1 0) (5 - length [4; 4]%Z) 0) /\
    length new_roll = 5 - length [4; 4]%Z /\
    Forall face new_roll /\
    valid_hand ([4; 4]%Z ++ new_roll).
Proof.
  assert (Hlen : length [4; 4]%Z <= 5) by (cbn; repeat constructor).
  split; [exact Hlen|]. split; [exact two_fours_faces|].
  exact (roll_dice_fills_hand [4; 4]%Z (seq_rng 1 0) Hlen two_fours_faces).
Defined.

(** X2: with more than five dice kept, [roll_dice] raises ValueError (a
    negative size for [randint]) instead of returning a hand. *)
Theorem roll_dice_negative_size (previous : list Z) (g : rng) :
  5 < length previous -> roll_dice previous g = Raise ValueError.
Proof. apply roll_dice_too_many. Qed.

Lemma roll_dice_negative_size_witness :
  5 < length [1; 1; 1; 1; 1; 1]%Z /\
  roll_dice [1; 1; 1; 1; 1; 1]%Z (seq_rng 1 0) = Raise ValueError.
Proof.
  assert (Hlen : 5 < length [1; 1; 1; 1; 1; 1]%Z) by (cbn; repeat constructor).
  split; [exact Hlen|].
  exact (roll_dice_negative_size [1; 1; 1; 1; 1; 1]%Z (seq_rng 1 0) Hlen).
Defined.

(** ** More on the mode detection *)

Lemma mem_app y l1 l2 : mem y (l1 ++ l2) = mem y l1 || mem y l2.
Proof. apply existsb_app. Qed.

Lemma mem_In y l : mem y l = true <-> In y l.
Proof.
  unfold mem. rewrite existsb_exists. split.
  - intros (x & Hx & Heq). apply Z.eqb_eq in Heq. now subst.
  - intros Hin. exists y. split; [exact Hin | apply Z.eqb_refl].
Qed.

Lemma keys_incr_eq x c :
  map fst (counter_incr x c) =
  if mem x (map fst c) then map fst c else map fst c ++ [x].
Proof.
  induction c as [|[k n] c IH]; [reflexivity|].
  cbn [counter_incr map fst mem existsb]. fold (mem x (map fst c)).
  rewrite (Z.eqb_sym x k).
  destruct (k =? x)%Z; cbn [orb map fst]; [reflexivity|].
  rewrite IH. now destruct (mem x (map fst c)).
Qed.

Lemma filter_filter_and {A} (f g : A -> bool) l :
  filter f (filter g l) = filter (fun y => f y && g y) l.
Proof.
  induction l as [|x l IH]; [reflexivity|]. cbn.
  destruct (g x); cbn; rewrite ?andb_true_r, ?andb_false_r.
  - destruct (f x); now rewrite IH.
  - exact IH.
Qed.

(** The keys of a Counter filled from [roll] are its old keys, then the
    new faces in the order of their first appearance. *)
Lemma keys_fold roll : forall c,
  map fst (fold_left (fun c x => counter_incr x c) roll c) =
  map fst c ++ filter (fun y => negb (mem y (map fst c))) (first_seen roll).
Proof.
  induction roll as [|x roll IH]; intros c.
  - cbn. now rewrite app_nil_r.
  - cbn [fold_left first_seen filter]. rewrite IH, keys_incr_eq.
    rewrite filter_filter_and.
    destruct (mem x (map fst c)) eqn:Hx; cbn [negb].
    + f_equal. apply filter_ext_in. intros y _.
      destruct (Z.eqb_spec y x) as [->|Hne]; cbn.
      * now rewrite Hx.
      * now rewrite andb_true_r.
    + rewrite <- app_assoc. cbn [app]. do 2 f_equal.
      apply filter_ext. intros y. rewrite mem_app. cbn.
      rewrite orb_false_r. apply negb_orb.
Qed.

Lemma keys_Counter roll : map fst (Counter roll) = first_seen roll.
Proof.
  unfold Counter. rewrite keys_fold. cbn.
  induction (first_seen roll) as [|y l IH]; [reflexivity|].
  cbn. now rewrite IH.
Qed.

(** The sort is stable: the items of one given count keep their order. *)
Lemma insert_desc_stable m p l :
  filter (fun q => snd q =? m) (insert_desc p l) =
  filter (fun q => snd q =? m) (p :: l).
Proof.
  induction l as [|q l IH]; [reflexivity|].
  cbn [insert_desc].
  destruct (Nat.leb_spec (snd q) (snd p)) as [Hle|Hlt]; [reflexivity|].
  cbn [filter] in *. rewrite IH.
  destruct (Nat.eqb_spec (snd q) m) as [Hq|Hq];
    destruct (Nat.eqb_spec (snd p) m) as [Hp|Hp]; try reflexivity.
  lia.
Qed.

Lemma most_common_stable m c :
  filter (fun q => snd q =? m) (most_common c) = filter (fun q => snd q =? m) c.
Proof.
  induction c as [|p c IH]; [reflexivity|].
  cbn [most_common fold_right]. fold (most_common c).
  rewrite insert_desc_stable. cbn [filter]. now rewrite IH.
Qed.

Lemma filter_items roll m c :
  Forall (fun q => snd q = freq (fst q) roll) c ->
  map fst (filter (fun q => snd q =? m) c) =
  filter (fun f => freq f roll =? m) (map fst c).
Proof.
  induction 1 as [|q c Hq _ IH]; [reflexivity|].
  cbn [filter map]. rewrite <- Hq.
  destruct (snd q =? m); cbn [map]; now rewrite IH.
Qed.

Lemma Counter_counts roll :
  Forall (fun q => snd q = freq (fst q) roll) (Counter roll).
Proof.
  apply Forall_forall. intros [k n] Hin.
  apply Counter_items in Hin. cbn. tauto.
Qed.

(** The mode list in closed form. *)
Lemma mode_list_first_seen roll :
  fst (find_what_to_keep roll) =
  filter (fun f => freq f roll =? snd (find_what_to_keep roll))
         (first_seen roll).
Proof.
  destruct (most_common (Counter roll)) as [|p l] eqn:E.
  { assert (Hnil : Counter roll = []).
    { apply Permutation_nil. rewrite <- E. apply most_common_perm. }
    rewrite <- keys_Counter, Hnil.
    unfold find_what_to_keep. now rewrite E. }
  rewrite (find_what_to_keep_counted _ _ _ E). cbn [fst snd].
  rewrite <- keys_Counter, <- (filter_items roll) by apply Counter_counts.
  rewrite <- (most_common_stable (snd p)), E.
  cbn [filter]. rewrite Nat.eqb_refl. cbn [map]. do 2 f_equal.
  pose proof (most_common_sorted (Counter roll)) as Hs. rewrite E in Hs.
  apply StronglySorted_inv in Hs. destruct Hs as [_ Hdesc].
  rewrite Forall_forall in Hdesc.
  apply filter_ext_in. intros q Hq. specialize (Hdesc q Hq).
  unfold desc in Hdesc.
  destruct (Nat.leb_spec (snd p) (snd q)), (Nat.eqb_spec (snd q) (snd p));
    try reflexivity; lia.
Qed.

Lemma first_seen_In f roll : In f (first_seen roll) <-> In f roll.
Proof.
  induction roll as [|x roll IH]; [reflexivity|].
  cbn [first_seen In]. rewrite filter_In, IH.
  destruct (Z.eqb_spec f x) as [->|Hne]; cbn; intuition congruence.
Qed.

Lemma NoDup_first_seen roll : NoDup (first_seen roll).
Proof.
  induction roll as [|x roll IH]; cbn [first_seen]; constructor.
  - rewrite filter_In. intros [_ Hx]. now rewrite Z.eqb_refl in Hx.
  - now apply NoDup_filter.
Qed.

Lemma mode_list_NoDup roll : NoDup (fst (find_what_to_keep roll)).
Proof.
  rewrite mode_list_first_seen. apply NoDup_filter, NoDup_first_seen.
Qed.

(** X3: the tie-break candidates are the faces of maximal frequency, each
    listed once, in the order in which they first appear in the hand. *)
Theorem mode_list_in_order_of_appearance (roll : list Z) :
  fst (find_what_to_keep roll) =
    filter (fun f => freq f roll =? snd (find_what_to_keep roll))
           (first_seen roll) /\
  NoDup (fst (find_what_to_keep roll)).
Proof.
  split; [apply mode_list_first_seen | apply mode_list_NoDup].
Qed.

Example mode_list_order : fst (find_what_to_keep [5; 3; 3; 5; 1]%Z) = [5; 3]%Z.
Proof. reflexivity. Qed.

(** X4: on any list, the count is 0 exactly when the list is empty, and so
    is the mode list empty exactly then: a hand with dice always offers a
    face to [random.choice]. *)
Theorem find_what_to_keep_empty_iff (roll : list Z) :
  (snd (find_what_to_keep roll) = 0 <-> roll = []) /\
  (fst (find_what_to_keep roll) = [] <-> roll = []).
Proof.
  destruct roll as [|x roll].
  - split; split; reflexivity.
  - destruct (find_what_to_keep_nonempty (x :: roll)) as [Hone Hml];
      [discriminate|].
    split; split; intros H; try discriminate; [lia | contradiction].
Qed.

(** X5: the result does not depend on the order of the dice beyond the
    order of the candidates: hands that are permutations of each other
    get the same count and the same set of candidates. *)
Theorem find_what_to_keep_permutation (roll roll' : list Z) :
  Permutation roll roll' ->
  snd (find_what_to_keep roll) = snd (find_what_to_keep roll') /\
  Permutation (fst (find_what_to_keep roll)) (fst (find_what_to_keep roll')).
Proof.
  intros Hperm.
  assert (Hfreq : forall f, freq f roll = freq f roll').
  { intros f. unfold freq. now apply Permutation_count_occ. }
  destruct roll as [|x roll].
  { apply Permutation_nil in Hperm. subst. split; reflexivity. }
  assert (Hne' : roll' <> []).
  { intros ->. symmetry in Hperm. apply Permutation_nil in Hperm. discriminate. }
  destruct (find_what_to_keep_spec (x :: roll)) as ((f0 & _ & Hf0) & Hmax & Hmode);
    [discriminate|].
  destruct (find_what_to_keep_spec roll' Hne') as ((f1 & _ & Hf1) & Hmax' & Hmode').
  assert (Hcount : snd (find_what_to_keep (x :: roll)) =
                   snd (find_what_to_keep roll')).
  { specialize (Hmax f1). specialize (Hmax' f0).
    rewrite <- Hfreq in Hmax'. rewrite Hfreq in Hmax. lia. }
  split; [exact Hcount|].
  apply NoDup_Permutation; try apply mode_list_NoDup.
  intros f. rewrite Hmode, Hmode', Hfreq, Hcount. reflexivity.
Qed.

Lemma find_what_to_keep_permutation_witness :
  Permutation [2; 4; 4; 2; 1]%Z [4; 1; 2; 4; 2]%Z /\
  snd (find_what_to_keep [2; 4; 4; 2; 1]%Z) =
    snd (find_what_to_keep [4; 1; 2; 4; 2]%Z) /\
  Permutation (fst (find_what_to_keep [2; 4; 4; 2; 1]%Z))
              (fst (find_what_to_keep [4; 1; 2; 4; 2]%Z)).
Proof.
  assert (Hperm : Permutation [2; 4; 4; 2; 1]%Z [4; 1; 2; 4; 2]%Z).
  { change [4; 1; 2; 4; 2]%Z with ([4; 1] ++ 2 :: [4; 2])%Z.
    apply Permutation_cons_app. cbn [app]. apply perm_skip.
    change [1; 4; 2]%Z with ([1] ++ 4 :: [2])%Z.
    apply Permutation_cons_app. cbn [app]. apply perm_swap. }
  split; [exact Hperm|].
  exact (find_what_to_keep_permutation _ _ Hperm).
Defined.

(** ** More on the turn *)

(** One execution of the body in full: the hand rolled, the new state and
    what the generators were asked for. *)
Lemma loop_body_detail s g :
  kept_inv s ->
  exists s' g',
    loop_body s g = Ret (s', g') /\
    valid_hand (previous_roll s ++ fresh_dice g (5 - length (previous_roll s))) /\
    mode_count s' =
      snd (find_what_to_keep
             (previous_roll s ++ fresh_dice g (5 - length (previous_roll s)))) /\
    1 <= mode_count s' /\
    g' = advance g (5 - length (previous_roll s))
                 (if 1 <? mode_count s' then 1 else 0).
Proof.
  intros Hinv. destruct (kept_inv_faces s Hinv) as [Hlen Hfaces].
  pose proof (roll_dice_fresh _ g Hlen) as Hroll.
  set (roll := previous_roll s ++ fresh_dice g (5 - length (previous_roll s))) in *.
  assert (Hvalid : valid_hand roll).
  { split.
    - unfold roll. rewrite length_app, fresh_dice_length. lia.
    - apply Forall_app. split; [exact Hfaces | apply fresh_dice_faces]. }
  pose proof (valid_hand_nonempty _ Hvalid) as Hne.
  destruct (find_what_to_keep_nonempty roll Hne) as [Hone _].
  destruct (loop_body_run s g roll _ Hroll Hne)
    as [[Hle Hbody]|(Hgt & keep & g2 & Hch & Hbody)].
  - eexists _, _. split; [exact Hbody|]. cbn [mode_count].
    split; [exact Hvalid|]. split; [reflexivity|]. split; [exact Hone|].
    destruct (Nat.ltb_spec 1 (snd (find_what_to_keep roll))); [lia|reflexivity].
  - eexists _, _. split; [exact Hbody|]. cbn [mode_count].
    split; [exact Hvalid|]. split; [reflexivity|]. split; [exact Hone|].
    apply random_choice_advance in Hch. rewrite Hch, advance_advance.
    destruct (Nat.ltb_spec 1 (snd (find_what_to_keep roll))); [|lia].
    now rewrite Nat.add_0_r.
Qed.

Lemma reaches_zero g0 s g : loop_reaches g0 0 s g -> s = init_state /\ g = g0.
Proof. intros H. inversion H. now split. Qed.

(** After the first roll the mode count is at least 1. *)
Lemma reaches_mode_pos g0 k s g :
  loop_reaches g0 k s g -> 1 <= k -> 1 <= mode_count s.
Proof.
  intros H Hk. inversion H as [|k' s0 gg ? ? Hreach Hcond Hbody]; subst; [lia|].
  destruct (reaches_inv _ _ _ _ Hreach) as [Hinv _].
  destruct (loop_body_detail s0 gg Hinv) as (s1 & g1 & Hbody' & _ & _ & Hone & _).
  rewrite Hbody in Hbody'. injection Hbody' as <- <-. exact Hone.
Qed.

(** What a run has drawn when it is at its test for the [k+1]-th time. *)
Lemma reaches_draws g0 k s g :
  loop_reaches g0 k s g ->
  exists a b, g = advance g0 a b /\ a <= 5 * k /\ b <= k /\ (1 <= k -> 5 <= a).
Proof.
  induction 1 as [|k s g s' g' Hreach (a & b & Hg & Ha & Hb & Hfive) Hcond Hbody].
  - exists 0, 0. rewrite advance_0. repeat split; lia.
  - destruct (reaches_inv _ _ _ _ Hreach) as [Hinv _].
    destruct (loop_body_detail s g Hinv) as (s1 & g1 & Hbody' & _ & _ & _ & Hg1).
    rewrite Hbody in Hbody'. injection Hbody' as <- <-.
    exists (a + (5 - length (previous_roll s))),
           (b + (if 1 <? mode_count s' then 1 else 0)).
    split; [now rewrite Hg1, Hg, advance_advance|].
    assert (Hc : (if 1 <? mode_count s' then 1 else 0) <= 1)
      by (destruct (1 <? mode_count s'); lia).
    repeat split; try lia.
    intros _. destruct k as [|k]; [|lia].
    destruct (reaches_zero _ _ _ Hreach) as [-> _]. cbn. lia.
Qed.

(** The loop always rolls at least once. *)
Lemma turn_loop_rolls fuel g0 :
  3 <= fuel ->
  exists k s g,
    turn_loop fuel g0 = Ret (s, g) /\ loop_reaches g0 k s g /\ 1 <= k <= 3.
Proof.
  intros Hfuel.
  destruct (turn_loop_run fuel g0 Hfuel) as (k & s & g & Hloop & Hreach & Hstop).
  exists k, s, g. split; [exact Hloop|]. split; [exact Hreach|].
  split; [|exact (reaches_bound _ _ _ _ Hreach)].
  destruct k as [|k]; [|lia].
  destruct (reaches_zero _ _ _ Hreach) as [-> _]. discriminate.
Qed.

(** X6: at every test of the loop, either no dice are kept and no pair has
    been seen (mode count at most 1), or the kept dice are exactly
    [mode_count] dice of one face, with [2 <= mode_count <= 5]; the roll
    counter is the number of rolls made and after the first roll the mode
    count is at least 1. *)
Theorem kept_dice_invariant (g0 : rng) (k : nat) (s : loop_state) (g : rng) :
  loop_reaches g0 k s g ->
  roll_count s = k /\
  mode_count s <= 5 /\
  (1 <= k -> 1 <= mode_count s) /\
  ((previous_roll s = [] /\ mode_count s <= 1) \/
   (exists keep, face keep /\ 2 <= mode_count s /\
                 previous_roll s = repeat keep (mode_count s))).
Proof.
  intros Hreach. destruct (reaches_inv _ _ _ _ Hreach) as [[Hfive Hkept] Hk].
  split; [exact Hk|]. split; [exact Hfive|].
  split; [exact (reaches_mode_pos _ _ _ _ Hreach) | exact Hkept].
Qed.

Lemma reaches_after_two_rolls :
  loop_reaches (seq_rng 3 0) 2 (mk_state [1; 1; 1; 1]%Z 2 4) (seq_rng_at 3 0 7 2).
Proof.
  apply (reaches_step (seq_rng 3 0) 1 (mk_state [1; 1; 1]%Z 1 3)
           (seq_rng_at 3 0 5 1)).
  - apply (reaches_step (seq_rng 3 0) 0 init_state (seq_rng 3 0)).
    + apply reaches_init.
    + reflexivity.
    + reflexivity.
  - reflexivity.
  - reflexivity.
Defined.

Lemma kept_dice_invariant_witness :
  loop_reaches (seq_rng 3 0) 2 (mk_state [1; 1; 1; 1]%Z 2 4) (seq_rng_at 3 0 7 2) /\
  roll_count (mk_state [1; 1; 1; 1]%Z 2 4) = 2 /\
  mode_count (mk_state [1; 1; 1; 1]%Z 2 4) <= 5 /\
  (1 <= 2 -> 1 <= mode_count (mk_state [1; 1; 1; 1]%Z 2 4)) /\
  ((previous_roll (mk_state [1; 1; 1; 1]%Z 2 4) = [] /\
    mode_count (mk_state [1; 1; 1; 1]%Z 2 4) <= 1) \/
   (exists keep, face keep /\ 2 <= mode_count (mk_state [1; 1; 1; 1]%Z 2 4) /\
                 previous_roll (mk_state [1; 1; 1; 1]%Z 2 4) =
                 repeat keep (mode_count (mk_state [1; 1; 1; 1]%Z 2 4)))).
Proof.
  split; [exact reaches_after_two_rolls|].
  exact (kept_dice_invariant _ _ _ _ reaches_after_two_rolls).
Defined.

(** X7: a turn makes between one and three rolls; from [np.random] it
    draws the 5 dice of the first roll and at most 5 per roll, hence never
    more than 15, and from [random] at most one tie-break per roll; the
    generators are left as they were but for their cursors. *)
Theorem turn_draws (fuel : nat) (g0 : rng) :
  3 <= fuel ->
  exists s r a b,
    turn_loop fuel g0 = Ret (s, advance g0 a b) /\
    play_one_round_of_yahtzee fuel g0 = Ret (r, advance g0 a b) /\
    1 <= roll_count s <= 3 /\
    5 <= a <= 5 * roll_count s /\
    b <= roll_count s.
Proof.
  intros Hfuel.
  destruct (turn_loop_rolls fuel g0 Hfuel) as (k & s & g & Hloop & Hreach & Hk).
  destruct (reaches_draws _ _ _ _ Hreach) as (a & b & -> & Ha & Hb & Hfive).
  destruct (reaches_inv _ _ _ _ Hreach) as [_ Hcount].
  exists s, (if mode_count s =? 5 then 1%Z else 0%Z), a, b.
  split; [exact Hloop|]. split; [exact (play_run _ _ _ _ Hloop)|].
  rewrite Hcount. repeat split; lia.
Qed.

Lemma turn_draws_witness :
  3 <= 3 /\
  exists s r a b,
    turn_loop 3 (seq_rng 3 0) = Ret (s, advance (seq_rng 3 0) a b) /\
    play_one_round_of_yahtzee 3 (seq_rng 3 0) = Ret (r, advance (seq_rng 3 0) a b) /\
    1 <= roll_count s <= 3 /\
    5 <= a <= 5 * roll_count s /\
    b <= roll_count s.
Proof.
  split; [apply le_n|].
  apply (turn_draws 3 (seq_rng 3 0)). apply le_n.
Defined.

Example turn_draws_eight :
  turn_loop 3 (seq_rng 3 0) =
  Ret (mk_state [1; 1; 1; 1]%Z 3 4, advance (seq_rng 3 0) 8 3).
Proof. reflexivity. Qed.

(** ** The printing variant *)

(** The printing body is the silent one, with the hand appended to the
    output. *)
Lemma loop_body_print_eq s out g :
  loop_body_print (s, out) g =
  match roll_dice (previous_roll s) g with
  | Ret (roll, _) =>
      match loop_body s g with
      | Ret (s', g') => Ret ((s', out ++ [roll]), g')
      | Raise e => Raise e
      | OutOfFuel => OutOfFuel
      end
  | Raise e => Raise e
  | OutOfFuel => OutOfFuel
  end.
Proof.
  unfold loop_body_print, loop_body, bind.
  destruct (roll_dice (previous_roll s) g) as [[roll g1]|e|]; try reflexivity.
  destruct (1 <? snd (find_what_to_keep roll)); [|reflexivity].
  now destruct (random_choice (fst (find_what_to_keep roll)) g1) as [[keep g2]|e|].
Qed.

(** A hand of five dice is five of a kind exactly when its count is 5. *)
Lemma count_five_iff roll :
  length roll = 5 -> (snd (find_what_to_keep roll) = 5 <-> yahtzee roll).
Proof.
  intros Hlen.
  assert (Hne : roll <> []) by (intros ->; discriminate).
  destruct (find_what_to_keep_spec roll Hne) as ((f0 & _ & Hf0) & Hmax & _).
  split.
  - intros Hfive. exists f0. rewrite <- Hlen.
    apply (count_occ_unique Z.eq_dec). fold (freq f0 roll). lia.
  - intros [d Hd]. specialize (Hmax d).
    pose proof (freq_le_length f0 roll) as Hle.
    rewrite Hd in Hmax at 1. rewrite freq_repeat in Hmax. lia.
Qed.

(** The two loops side by side, from any state of a run: same final state
    and generators; one valid hand printed per roll; the final mode count
    is the count of the last hand printed. *)
Lemma while_print_run fuel : forall g0 j s g out,
  loop_reaches g0 j s g -> 3 - j <= fuel ->
  exists k s' g' hands,
    while loop_cond loop_body fuel s g = Ret (s', g') /\
    while (fun st => loop_cond (fst st)) loop_body_print fuel (s, out) g =
      Ret ((s', out ++ hands), g') /\
    loop_reaches g0 k s' g' /\
    j + length hands = k /\
    Forall valid_hand hands /\
    (hands <> [] -> mode_count s' = snd (find_what_to_keep (last hands []))).
Proof.
  induction fuel as [|fuel IH]; intros g0 j s g out Hreach Hfuel.
  - exists j, s, g, []. destruct (reaches_inv _ _ _ _ Hreach) as [_ Hj].
    assert (Hcond : loop_cond s = false).
    { unfold loop_cond. apply andb_false_iff. left. apply Nat.ltb_ge. lia. }
    cbn. rewrite Hcond, app_nil_r.
    repeat split; auto; try lia; try congruence.
  - destruct (loop_cond s) eqn:Hcond.
    + destruct (reaches_inv _ _ _ _ Hreach) as [Hinv _].
      destruct (kept_inv_faces s Hinv) as [Hlen _].
      pose proof (roll_dice_fresh _ g Hlen) as Hroll.
      destruct (loop_body_detail s g Hinv)
        as (s1 & g1 & Hbody & Hvalid & Hmode & _).
      set (roll := previous_roll s ++ fresh_dice g (5 - length (previous_roll s)))
        in *.
      assert (Hprint : loop_body_print (s, out) g = Ret ((s1, out ++ [roll]), g1)).
      { now rewrite loop_body_print_eq, Hroll, Hbody. }
      destruct (IH g0 (S j) s1 g1 (out ++ [roll]))
        as (k & s' & g' & hands & Hrun & Hrunp & Hk & Hcount & Hhands & Hlast).
      { econstructor; eassumption. }
      { lia. }
      exists k, s', g', (roll :: hands).
      split; [cbn; rewrite Hcond, (bind_Ret _ _ _ _ _ Hbody); exact Hrun|].
      split.
      { cbn [while fst]. rewrite Hcond, (bind_Ret _ _ _ _ _ Hprint), Hrunp.
        now rewrite <- app_assoc. }
      split; [exact Hk|]. split; [cbn; lia|].
      split; [now constructor|]. intros _.
      destruct hands as [|h hands].
      * cbn [last]. cbn in Hcount.
        assert (Hj : k = S j) by lia. clear Hcount. subst k.
        assert (Hstep : loop_reaches g0 (S j) s1 g1)
          by (econstructor; eassumption).
        destruct (reaches_det _ _ _ _ Hk _ _ Hstep) as [-> _]. exact Hmode.
      * change (last (roll :: h :: hands) []) with (last (h :: hands) []).
        apply Hlast. discriminate.
    + exists j, s, g, []. cbn. rewrite Hcond, app_nil_r.
      repeat split; auto; try lia; try congruence.
Qed.

Lemma play_print_run fuel g0 :
  3 <= fuel ->
  exists s g stdout,
    turn_loop fuel g0 = Ret (s, g) /\
    play_one_round_of_yahtzee_print fuel g0 =
      Ret ((if mode_count s =? 5 then 1%Z else 0%Z, stdout), g) /\
    length stdout = roll_count s /\
    1 <= length stdout <= 3 /\
    Forall valid_hand stdout /\
    mode_count s = snd (find_what_to_keep (last stdout [])).
Proof.
  intros Hfuel.
  destruct (while_print_run fuel g0 0 init_state g0 [])
    as (k & s & g & hands & Hrun & Hrunp & Hk & Hcount & Hhands & Hlast);
    [constructor | lia |].
  cbn [app] in Hrunp. cbn in Hcount.
  destruct (turn_loop_rolls fuel g0 Hfuel) as (k' & s' & g' & Hloop & Hk' & Hrange).
  unfold turn_loop in Hloop. rewrite Hrun in Hloop. injection Hloop as <- <-.
  destruct (reaches_inv _ _ _ _ Hk) as [_ Hrc].
  destruct (reaches_inv _ _ _ _ Hk') as [_ Hrc'].
  exists s, g, hands. split; [exact Hrun|]. split.
  { unfold play_one_round_of_yahtzee_print.
    rewrite (bind_Ret _ _ _ _ _ Hrunp). cbn [fst snd].
    now destruct (mode_count s =? 5). }
  split; [lia|]. split; [lia|]. split; [exact Hhands|].
  apply Hlast. intros ->. cbn in Hcount. lia.
Qed.



Example print_three_hands :
  play_one_round_of_yahtzee_print 3 (seq_rng 3 0) =
  Ret ((0%Z, [[1; 4; 1; 4; 1]; [1; 1; 1; 4; 1]; [1; 1; 1; 1; 4]]%Z),
       advance (seq_rng 3 0) 8 3).
Proof. reflexivity. Qed.

(** X9: the turn returns 1 exactly when the last hand it rolled (the last
    one printed) is five of a kind, and 0 exactly when it is not. *)
Theorem play_true_iff_last_hand_yahtzee (fuel : nat) (g0 : rng) :
  3 <= fuel ->
  exists r g stdout,
    play_one_round_of_yahtzee_print fuel g0 = Ret ((r, stdout), g) /\
    (r = 1%Z <-> yahtzee (last stdout [])) /\
    (r = 0%Z <-> ~ yahtzee (last stdout [])).
Proof.
  intros Hfuel.
  destruct (play_print_run fuel g0 Hfuel)
    as (s & g & stdout & _ & Hprint & _ & Hlen & Hvalid & Hmode).
  assert (Hfive : length (last stdout []) = 5).
  { destruct stdout as [|h stdout]; [cbn in Hlen; lia|].
    rewrite Forall_forall in Hvalid.
    apply (Hvalid (last (h :: stdout) [])).
    rewrite (app_removelast_last [] (l := h :: stdout)) at 2 by discriminate.
    apply in_or_app. right. now left. }
  pose proof (count_five_iff _ Hfive) as Hiff. rewrite <- Hmode in Hiff.
  exists (if mode_count s =? 5 then 1%Z else 0%Z), g, stdout.
  split; [exact Hprint|].
  destruct (Nat.eqb_spec (mode_count s) 5) as [Heq|Hne].
  - split; split; intros; try tauto; discriminate.
  - split; split; intros; try tauto; discriminate.
Qed.

Lemma play_true_iff_last_hand_yahtzee_witness :
  3 <= 3 /\
  exists r g stdout,
    play_one_round_of_yahtzee_print 3 (seq_rng 6 0) = Ret ((r, stdout), g) /\
    (r = 1%Z <-> yahtzee (last stdout [])) /\
    (r = 0%Z <-> ~ yahtzee (last stdout [])).
Proof.
  split; [apply le_n|].
  apply (play_true_iff_last_hand_yahtzee 3 (seq_rng 6 0)). apply le_n.
Defined.

(** ** Rigged generators *)

Lemma fresh_dice_const g n c :
  (forall i, i < n -> np_draws g (np_pos g + i) mod 6 = c) ->
  fresh_dice g n = repeat (1 + Z.of_nat c)%Z n.
Proof.
  intros Hc. unfold fresh_dice.
  assert (Hl : forall l, (forall i, In i l -> i < n) ->
            map (fun i => (1 + Z.of_nat (np_draws g (np_pos g + i)) mod 6)%Z) l =
            repeat (1 + Z.of_nat c)%Z (length l)).
  { induction l as [|i l IH]; intros Hin; [reflexivity|].
    cbn [map length repeat]. rewrite IH by (intros; apply Hin; now right).
    rewrite <- (Hc i) by (apply Hin; now left).
    now rewrite Nat2Z.inj_mod. }
  rewrite Hl, length_seq; [reflexivity|].
  intros i Hi. apply in_seq in Hi. lia.
Qed.

Lemma fresh_dice_NoDup g n :
  NoDup (map (fun i => np_draws g (np_pos g + i) mod 6) (seq 0 n)) ->
  NoDup (fresh_dice g n).
Proof.
  intros Hnd.
  assert (Heq : fresh_dice g n =
                map (fun x => (1 + Z.of_nat x)%Z)
                    (map (fun i => np_draws g (np_pos g + i) mod 6) (seq 0 n))).
  { unfold fresh_dice. rewrite map_map. apply map_ext. intros i.
    now rewrite Nat2Z.inj_mod. }
  rewrite Heq. apply NoDup_map_NoDup_ForallPairs; [|exact Hnd].
  intros x y _ _ Hxy. lia.
Qed.

(** The count and the only candidate of a hand of five equal dice. *)
Lemma find_what_to_keep_yahtzee d keep :
  snd (find_what_to_keep (repeat d 5)) = 5 /\
  (In keep (fst (find_what_to_keep (repeat d 5))) -> keep = d).
Proof.
  assert (Hfive : snd (find_what_to_keep (repeat d 5)) = 5).
  { apply count_five_iff; [apply repeat_length | now exists d]. }
  split; [exact Hfive|]. intros Hin.
  destruct (find_what_to_keep_spec (repeat d 5)) as (_ & _ & Hmode);
    [discriminate|].
  apply Hmode in Hin. rewrite Hfive in Hin.
  assert (Hk : In keep (repeat d 5)) by (apply freq_pos_In; lia).
  now apply repeat_spec in Hk.
Qed.

(** X10: if the first five dice drawn all show the same face, the turn is
    a Yahtzee after a single roll: it returns 1 with one loop iteration of
    budget, having drawn five dice and one tie-break, and keeps the five
    dice. *)
Theorem same_face_first_roll (fuel : nat) (g : rng) (c : nat) :
  1 <= fuel ->
  (forall i, i < 5 -> np_draws g (np_pos g + i) mod 6 = c) ->
  turn_loop fuel g =
    Ret (mk_state (repeat (1 + Z.of_nat c)%Z 5) 1 5, advance g 5 1) /\
  play_one_round_of_yahtzee fuel g = Ret (1%Z, advance g 5 1).
Proof.
  intros Hfuel Hc. set (d := (1 + Z.of_nat c)%Z).
  assert (Hbody : loop_body init_state g =
                  Ret (mk_state (repeat d 5) 1 5, advance g 5 1)).
  { pose proof (roll_dice_fresh [] g (Nat.le_0_l 5)) as Hroll.
    cbn [length app Nat.sub] in Hroll.
    rewrite (fresh_dice_const g 5 c Hc) in Hroll. fold d in Hroll.
    destruct (loop_body_run init_state g (repeat d 5) _ Hroll)
      as [[Hle _]|(_ & keep & g2 & Hch & Hbody)]; [discriminate| |].
    { destruct (find_what_to_keep_yahtzee d d) as [Hfive _]. lia. }
    destruct (find_what_to_keep_yahtzee d keep) as [Hfive Hkeep].
    rewrite Hbody, Hfive. cbn [roll_count].
    rewrite (random_choice_advance _ _ _ _ Hch), advance_advance.
    rewrite (Hkeep (random_choice_In _ _ _ _ Hch)).
    rewrite keep_dice_repeat, freq_repeat. reflexivity. }
  assert (Hloop : turn_loop fuel g =
                  Ret (mk_state (repeat d 5) 1 5, advance g 5 1)).
  { unfold turn_loop. destruct fuel as [|fuel]; [lia|].
    cbn [while]. change (loop_cond init_state) with true. cbv iota.
    rewrite (bind_Ret _ _ _ _ _ Hbody).
    destruct fuel; reflexivity. }
  split; [exact Hloop|].
  now rewrite (play_run _ _ _ _ Hloop).
Qed.

Lemma all_sixes : forall i, i < 5 -> np_draws (seq_rng 6 0) (np_pos (seq_rng 6 0) + i) mod 6 = 0.
Proof.
  intros i _. cbn [seq_rng seq_rng_at np_draws np_pos Nat.add].
  rewrite Nat.mul_comm. apply Nat.Div0.mod_mul.
Defined.

Lemma same_face_first_roll_witness :
  1 <= 1 /\
  (forall i, i < 5 -> np_draws (seq_rng 6 0) (np_pos (seq_rng 6 0) + i) mod 6 = 0) /\
  turn_loop 1 (seq_rng 6 0) =
    Ret (mk_state (repeat (1 + Z.of_nat 0)%Z 5) 1 5, advance (seq_rng 6 0) 5 1) /\
  play_one_round_of_yahtzee 1 (seq_rng 6 0) = Ret (1%Z, advance (seq_rng 6 0) 5 1).
Proof.
  split; [apply le_n|]. split; [exact all_sixes|].
  exact (same_face_first_roll 1 (seq_rng 6 0) 0 (le_n 1) all_sixes).
Defined.

(** A roll from no kept dice that shows five different faces keeps
    nothing. *)
Lemma no_pair_step s g :
  previous_roll s = [] ->
  NoDup (map (fun i => np_draws g (np_pos g + i) mod 6) (seq 0 5)) ->
  loop_body s g = Ret (mk_state [] (S (roll_count s)) 1, advance g 5 0).
Proof.
  intros Hnil Hnd.
  pose proof (roll_dice_fresh (previous_roll s) g) as Hroll.
  rewrite Hnil in Hroll. specialize (Hroll (Nat.le_0_l 5)).
  cbn [length app Nat.sub] in Hroll. rewrite <- Hnil in Hroll at 1.
  assert (Hne : fresh_dice g 5 <> []).
  { intros H. apply (f_equal (@length Z)) in H.
    rewrite fresh_dice_length in H. discriminate. }
  destruct (find_what_to_keep_spec _ Hne) as ((f0 & _ & Hf0) & _).
  destruct (find_what_to_keep_nonempty _ Hne) as [Hone _].
  pose proof (proj1 (NoDup_count_occ Z.eq_dec _) (fresh_dice_NoDup g 5 Hnd) f0)
    as Hle.
  fold (freq f0 (fresh_dice g 5)) in Hle.
  destruct (loop_body_run s g _ _ Hroll Hne) as [[_ Hbody]|[Hgt _]]; [|lia].
  rewrite Hbody, Hnil. do 3 f_equal. lia.
Qed.

(** X11: if each of the three rolls of five dice shows five different
    faces, the turn keeps nothing, rolls three times and returns 0, having
    drawn fifteen dice and no tie-break. *)
Theorem no_pair_three_rolls (fuel : nat) (g : rng) :
  3 <= fuel ->
  (forall r, r < 3 ->
     NoDup (map (fun i => np_draws g (np_pos g + 5 * r + i) mod 6) (seq 0 5))) ->
  turn_loop fuel g = Ret (mk_state [] 3 1, advance g 15 0) /\
  play_one_round_of_yahtzee fuel g = Ret (0%Z, advance g 15 0).
Proof.
  intros Hfuel Hnd.
  assert (Hstep : forall r s, r < 3 -> previous_roll s = [] ->
            loop_body s (advance g (5 * r) 0) =
            Ret (mk_state [] (S (roll_count s)) 1, advance g (5 * r + 5) 0)).
  { intros r s Hr Hnil. rewrite (no_pair_step s _ Hnil).
    - now rewrite advance_advance.
    - exact (Hnd r Hr). }
  assert (Hloop : turn_loop fuel g = Ret (mk_state [] 3 1, advance g 15 0)).
  { unfold turn_loop.
    destruct fuel as [|[|[|fuel]]]; try lia.
    assert (H0 : 0 < 3) by lia. assert (H1 : 1 < 3) by lia.
    assert (H2 : 2 < 3) by lia.
    rewrite <- (advance_0 g) at 1.
    cbn [while]. change (loop_cond init_state) with true. cbv iota.
    rewrite (bind_Ret _ _ _ _ _ (Hstep 0 init_state H0 eq_refl)).
    cbn [roll_count init_state].
    change (loop_cond (mk_state [] 1 1)) with true. cbv iota.
    rewrite (bind_Ret _ _ _ _ _
               (Hstep 1 (mk_state [] 1 1) H1 eq_refl)).
    cbn [roll_count].
    change (loop_cond (mk_state [] 2 1)) with true. cbv iota.
    rewrite (bind_Ret _ _ _ _ _
               (Hstep 2 (mk_state [] 2 1) H2 eq_refl)).
    cbn [roll_count]. destruct fuel; reflexivity. }
  split; [exact Hloop|].
  now rewrite (play_run _ _ _ _ Hloop).
Qed.


Lemma cycle_no_pair : forall r, r < 3 ->
  NoDup (map (fun i => np_draws (seq_rng 1 0) (np_pos (seq_rng 1 0) + 5 * r + i) mod 6)
             (seq 0 5)).
Proof.
  intros r Hr.
  destruct r as [|[|[|r]]]; [| | | exfalso; lia];
    vm_compute; repeat constructor; cbn; intuition discriminate.
Defined.

Lemma no_pair_three_rolls_witness :
  3 <= 3 /\
  (forall r, r < 3 ->
     NoDup (map (fun i => np_draws (seq_rng 1 0) (np_pos (seq_rng 1 0) + 5 * r + i) mod 6)
                (seq 0 5))) /\
  turn_loop 3 (seq_rng 1 0) = Ret (mk_state [] 3 1, advance (seq_rng 1 0) 15 0) /\
  play_one_round_of_yahtzee 3 (seq_rng 1 0) = Ret (0%Z, advance (seq_rng 1 0) 15 0).
Proof.
  split; [apply le_n|]. split; [exact cycle_no_pair|].
  exact (no_pair_three_rolls 3 (seq_rng 1 0) (le_n 3) cycle_no_pair).
Defined.

(** ** More on the Monte Carlo cells *)

Lemma bind_assoc {A B C} (m : M A) (k : A -> M B) (h : B -> M C) g :
  bind (bind m k) h g = bind m (fun a => bind (k a) h) g.
Proof. unfold bind. now destruct (m g) as [[a g1]|e|]. Qed.

Lemma bind_ext {A B} (m : M A) (k k' : A -> M B) g :
  (forall a g1, k a g1 = k' a g1) -> bind m k g = bind m k' g.
Proof. intros H. unfold bind. destruct (m g) as [[a g1]|e|]; auto. Qed.

(** X12: the sampling loop composes: running [n + m] trials is running
    [n] trials and then [m] more on the outcomes and the generators the
    first ones left, errors included. *)
Theorem run_trials_split (fuel n m : nat) (acc : list Z) (g : rng) :
  run_trials fuel (n + m) acc g =
  (ys <- run_trials fuel n acc ;; run_trials fuel m ys) g.
Proof.
  revert acc g. induction n as [|n IH]; intros acc g; [reflexivity|].
  cbn [Nat.add run_trials]. rewrite bind_assoc.
  apply bind_ext. intros y g1. apply IH.
Qed.

Lemma play_draws fuel g y g1 :
  3 <= fuel ->
  play_one_round_of_yahtzee fuel g = Ret (y, g1) ->
  exists a b, g1 = advance g a b /\ 5 <= a <= 15 /\ b <= 3.
Proof.
  intros Hfuel Hplay.
  destruct (turn_loop_rolls fuel g Hfuel) as (k & s & g' & Hloop & Hreach & Hk).
  rewrite (play_run _ _ _ _ Hloop) in Hplay. injection Hplay as _ <-.
  destruct (reaches_draws _ _ _ _ Hreach) as (a & b & -> & Ha & Hb & Hfive).
  exists a, b. repeat split; lia.
Qed.

Lemma trials_draws fuel n g ys g' :
  3 <= fuel ->
  trials fuel n g ys g' ->
  exists a b, g' = advance g a b /\ 5 * n <= a <= 15 * n /\ b <= 3 * n.
Proof.
  intros Hfuel. induction 1 as [g|n g y g1 ys g2 Hplay Htrials IH].
  - exists 0, 0. rewrite advance_0. repeat split; lia.
  - destruct (play_draws _ _ _ _ Hfuel Hplay) as (a & b & -> & Ha & Hb).
    destruct IH as (a' & b' & -> & Ha' & Hb').
    exists (a + a'), (b + b'). rewrite advance_advance. repeat split; lia.
Qed.

(** X13: for every [n], positive or not, and every state of the
    generators, the sampling cell raises nothing: it returns a value,
    which is NaN exactly when [n <= 0]; it draws between 5 and 15 dice per
    trial and at most 3 tie-breaks per trial. *)
Theorem estimate_never_raises (fuel : nat) (n : Z) (g : rng) :
  3 <= fuel ->
  exists v a b,
    estimate fuel n g = Ret (v, advance g a b) /\
    (v = NaN <-> (n <= 0)%Z) /\
    5 * Z.to_nat n <= a <= 15 * Z.to_nat n /\
    b <= 3 * Z.to_nat n.
Proof.
  intros Hfuel.
  destruct (trials_ok fuel (Z.to_nat n) g Hfuel) as (ys & g' & Htrials).
  destruct (trials_draws _ _ _ _ _ Hfuel Htrials) as (a & b & -> & Ha & Hb).
  pose proof (trials_length _ _ _ _ _ Htrials) as Hlen.
  exists (np_mean ys), a, b.
  split; [exact (estimate_run _ _ _ _ _ Htrials)|].
  split; [|split; assumption].
  destruct ys as [|y ys]; cbn in Hlen; cbn [np_mean].
  - split; [lia | reflexivity].
  - split; [discriminate | lia].
Qed.

Lemma estimate_never_raises_witness :
  3 <= 3 /\
  exists v a b,
    estimate 3 2 (lucky_rng_at 0 0) = Ret (v, advance (lucky_rng_at 0 0) a b) /\
    (v = NaN <-> (2 <= 0)%Z) /\
    5 * Z.to_nat 2 <= a <= 15 * Z.to_nat 2 /\
    b <= 3 * Z.to_nat 2.
Proof.
  split; [apply le_n|].
  apply (estimate_never_raises 3 2 (lucky_rng_at 0 0)). apply le_n.
Defined.
